(** * dls_topaz3.evaluate_model: slice-to-structure aggregation

    A shallow embedding of [evaluate] from [dls_topaz3/evaluate_model.py]
    and the properties of its aggregation pipeline.

    Modelling conventions.
    - A prediction is one row of the array returned by the model: the pair
      [(x[0], x[1])] of the negative and the positive channel.  Scores are
      exact rationals ([Q]), and the tables of means and fractions hold the
      values before floating-point rounding.  What the rounding of [np.mean]
      does to the structure decisions is treated apart, with the computed
      mean as a parameter ([np_mean]) and a binary64 rounding
      ([round_binary64], [float64_mean]).
    - [len(...)], indices and [slices_per_structure] are natural numbers:
      [slices_per_structure] counts the slices of one structure.
    - Python slices [a[lo:hi]] clamp at the end of the sequence, as
      [take]/[drop] do.
    - Exceptions are an explicit error type; a stage that raises aborts the
      run ([inl]). *)

From Stdlib Require Import QArith Qminmax Qround Qabs Qpower Lqa ZArith Lia Ascii String.
From stdpp Require Import base list strings gmap sorting.

Open Scope Q_scope.
Open Scope nat_scope.

(** ** Predictions and per-slice analysis *)

(** One row of [predictions]: [(x[0], x[1])]. *)
Definition Prediction : Type := (Q * Q)%type.

Definition negative (p : Prediction) : Q := fst p.
Definition positive (p : Prediction) : Q := snd p.

(** Python's [a > b] on two scores. *)
Definition gtb (a b : Q) : bool := negb (Qle_bool a b).

(** Python's [int(b)] for a boolean. *)
Definition int_of_bool (b : bool) : Z := if b then 1%Z else 0%Z.

(** [predictions_decoded = [int(pred[1] > pred[0]) for pred in predictions]] *)
Definition predictions_decoded (predictions : list Prediction) : list Z :=
  map (fun pred => int_of_bool (gtb (positive pred) (negative pred))) predictions.

(** ** Per-structure slicing *)

(** [xs[S * i : S * i + S]] *)
Definition structure_slice {A} (S i : nat) (xs : list A) : list A :=
  take S (drop (S * i) xs).

(** [range(int(len(xs) / S))] *)
Definition structure_range {A} (S : nat) (xs : list A) : list nat :=
  seq 0 (length xs / S).

(** The slices the per-structure comprehensions range over, in order. *)
Definition batches {A} (S : nat) (xs : list A) : list (list A) :=
  map (fun i => structure_slice S i xs) (structure_range S xs).

(** ** Per-structure aggregation *)

Definition sum_Q (xs : list Q) : Q := foldr Qplus 0%Q xs.
Definition sum_Z (xs : list Z) : Z := foldr Z.add 0%Z xs.

(** [np.mean(xs)] in exact arithmetic: the sum of the values divided by
    their number.  numpy's floating-point result can differ from it by
    rounding; [np_mean] below stands for the computed value.  numpy gives nan
    for an empty slice, which does not occur once the cardinality check has
    passed. *)
Definition mean (xs : list Q) : Q :=
  (sum_Q xs / inject_Z (Z.of_nat (length xs)))%Q.

(** Lines 141-161: the table of average 0 and 1 scores of each structure. *)
Definition predictions_structure_avg (S : nat) (predictions : list Prediction)
  : list (Q * Q) :=
  map (fun i =>
         (mean (map negative (structure_slice S i predictions)),
          mean (map positive (structure_slice S i predictions))))
      (structure_range S predictions).

(** Lines 181-183:
    [(int(pred[0] > pred[1]), int(pred[1] > pred[0])) for pred in predictions] *)
Definition predictions_by_result (predictions : list Prediction) : list (Z * Z) :=
  map (fun pred =>
         (int_of_bool (gtb (negative pred) (positive pred)),
          int_of_bool (gtb (positive pred) (negative pred))))
      predictions.

(** [np.sum(column) / slices_per_structure] (true division) in exact
    arithmetic; numpy rounds the quotient to binary64. *)
Definition fraction (S : nat) (column : list Z) : Q :=
  (inject_Z (sum_Z column) / inject_Z (Z.of_nat S))%Q.

(** Lines 184-206: the table of the fractions of 0 and 1 classifications of
    each structure. *)
Definition predictions_structure_count (S : nat) (predictions : list Prediction)
  : list (Q * Q) :=
  map (fun i =>
         (fraction S (map fst (structure_slice S i (predictions_by_result predictions))),
          fraction S (map snd (structure_slice S i (predictions_by_result predictions)))))
      (structure_range S predictions).

(** [int(pred > 0.5)] *)
Definition decide_half (pred : Q) : Z := int_of_bool (gtb pred (1 # 2)).

(** Lines 225-227: [[int(pred > 0.5) for pred in predictions_structure_avg[:, 1]]] *)
Definition predictions_struct_avg_flat (S : nat) (predictions : list Prediction)
  : list Z :=
  map decide_half (map snd (predictions_structure_avg S predictions)).

(** Lines 228-230: [[int(pred > 0.5) for pred in predictions_structure_count[:, 1]]] *)
Definition predictions_struct_count_flat (S : nat) (predictions : list Prediction)
  : list Z :=
  map decide_half (map snd (predictions_structure_count S predictions)).

(** The scores of one batch, as the two tables compute them. *)
Definition mean_negative (batch : list Prediction) : Q := mean (map negative batch).
Definition mean_positive (batch : list Prediction) : Q := mean (map positive batch).
Definition count_fraction_negative (S : nat) (batch : list Prediction) : Q :=
  fraction S (map fst (predictions_by_result batch)).
Definition count_fraction (S : nat) (batch : list Prediction) : Q :=
  fraction S (map snd (predictions_by_result batch)).

(** [[xs[S * i] for i in range(int(len(xs) / S))]]; [None] when an index is
    out of range. *)
Definition first_of_each_structure {A} (S : nat) (xs : list A) : option (list A) :=
  mapM (fun i => xs !! (S * i)) (structure_range S xs).

(** ** Means as numpy computes them *)

(** A floating-point result: a number, an infinity or nan. *)
Inductive Score : Type :=
| Number (q : Q)
| PlusInfinity
| MinusInfinity
| NotANumber.

(** [int(pred > 0.5)] on a floating-point result; nan compares false. *)
Definition decide_score (pred : Score) : Z :=
  match pred with
  | Number q => decide_half q
  | PlusInfinity => 1%Z
  | MinusInfinity | NotANumber => 0%Z
  end.

Section ComputedMean.

(** [np.mean] of a column, with whatever rounding numpy's floating-point sum
    and division make. *)
Variable np_mean : list Q -> Score.

(** Lines 141-161, with the means as computed. *)
Definition predictions_structure_avg_np (S : nat) (predictions : list Prediction)
  : list (Score * Score) :=
  map (fun i =>
         (np_mean (map negative (structure_slice S i predictions)),
          np_mean (map positive (structure_slice S i predictions))))
      (structure_range S predictions).

(** Lines 225-227, on the means as computed. *)
Definition predictions_struct_avg_flat_np (S : nat) (predictions : list Prediction)
  : list Z :=
  map decide_score (map snd (predictions_structure_avg_np S predictions)).

End ComputedMean.

(** The exponent of the power of two at or below a positive rational. *)
Definition floor_log2 (a : Q) : Z :=
  let e := (Z.log2 (Qnum a) - Z.log2 (Zpos (Qden a)))%Z in
  if Qle_bool (2 ^ e) a then e else (e - 1)%Z.

(** The nearest integer, the even one on a tie. *)
Definition round_half_even (x : Q) : Z :=
  let f := Qfloor x in
  match (x - inject_Z f ?= 1 # 2)%Q with
  | Lt => f
  | Gt => (f + 1)%Z
  | Eq => if Z.even f then f else (f + 1)%Z
  end.

(** Rounding to the nearest binary64 number (53-bit significand, ties to
    even); overflow and subnormal numbers are not modelled. *)
Definition round_binary64 (q : Q) : Q :=
  if Qeq_bool q 0 then 0%Q
  else
    let a := Qabs q in
    let e := floor_log2 a in
    let r := (inject_Z (round_half_even (a * 2 ^ (52 - e))) * 2 ^ (e - 52))%Q in
    if Qle_bool 0 q then r else (- r)%Q.

(** [np.mean] of a float64 column of fewer than eight values: numpy adds
    them from left to right and divides the sum by their number, rounding
    each operation.  Longer columns, which numpy sums in blocks, and the empty
    column are not modelled ([None]). *)
Definition float64_mean (xs : list Q) : option Q :=
  if (0 <? length xs) && (length xs <? 8)
  then Some (round_binary64
               (foldl (fun r x => round_binary64 (r + x)) 0%Q xs
                / inject_Z (Z.of_nat (length xs))))
  else None.

(** [float64_mean] as a floating-point result. *)
Definition float64_mean_score (xs : list Q) : Score :=
  match float64_mean xs with
  | Some m => Number m
  | None => NotANumber
  end.

(** ** File names: [Path(file).stem] and the structure-name pattern *)

Definition slash : ascii := "/"%char.
Definition dot : ascii := "."%char.
Definition underscore : ascii := "_"%char.
Definition newline : ascii := "010"%char.

Definition ascii_eqb (a b : ascii) : bool := bool_decide (a = b).

(** [s.split("/")] *)
Fixpoint split_slash (s : list ascii) : list (list ascii) :=
  match s with
  | [] => [[]]
  | c :: t =>
      if ascii_eqb c slash then [] :: split_slash t
      else match split_slash t with
           | [] => [[c]]
           | part :: parts => (c :: part) :: parts
           end
  end.

(** pathlib keeps the components that are neither empty nor ["."]; the name
    of a path is its last component, or the empty string. *)
Definition path_name (file : list ascii) : list ascii :=
  let parts :=
    filter (fun part => part <> [] /\ part <> [dot]) (split_slash file) in
  default [] (last parts).

(** [name.rfind(".")] *)
Fixpoint rfind_dot (name : list ascii) : option nat :=
  match name with
  | [] => None
  | c :: t =>
      match rfind_dot t with
      | Some i => Some (S i)
      | None => if ascii_eqb c dot then Some 0 else None
      end
  end.

(** pathlib's [stem]: [name[:i]] if [0 < i < len(name) - 1] for
    [i = name.rfind(".")], else [name]. *)
Definition stem_of_name (name : list ascii) : list ascii :=
  match rfind_dot name with
  | Some i =>
      if (0 <? i) && (i + 1 <? length name) then take i name else name
  | None => name
  end.

(** [Path(file).stem] *)
Definition stem (file : string) : list ascii :=
  stem_of_name (path_name (list_ascii_of_string file)).

(** [[0-9]] *)
Definition is_digit (c : ascii) : bool :=
  let n := nat_of_ascii c in (48 <=? n) && (n <=? 57).

(** The lookahead of the pattern of line 62 at the head of [s]: an
    underscore and at least one digit. *)
Definition lookahead (s : list ascii) : bool :=
  match s with
  | u :: d :: _ => ascii_eqb u underscore && is_digit d
  | _ => false
  end.

(** The match of the pattern of line 62 anchored at the head of [s]: its
    greedy group of any characters but newlines takes the longest run after
    which the lookahead holds, backtracking one character at a time. *)
Fixpoint match_at (s : list ascii) : option (list ascii) :=
  match s with
  | [] => None
  | c :: t =>
      match (if ascii_eqb c newline then None else match_at t) with
      | Some m => Some (c :: m)
      | None => if lookahead s then Some [] else None
      end
  end.

(** [re.findall(pattern, s)[0]]: [findall] scans [s] from left to right, so
    its first element is the group of the match at the leftmost position where
    the pattern matches; [None] when [findall] returns the empty list. *)
Fixpoint findall_first (s : list ascii) : option (list ascii) :=
  match s with
  | [] => None
  | _ :: t =>
      match match_at s with
      | Some m => Some m
      | None => findall_first t
      end
  end.

(** The stem has an underscore followed by a digit somewhere. *)
Definition has_index_suffix (s : list ascii) : Prop :=
  exists pre d rest, s = pre ++ underscore :: d :: rest /\ is_digit d = true.

(** ** Errors *)

Inductive Error : Type :=
| AssertionError (message : string)
| ZeroDivisionError
| IndexError
| KeyError (name : string)
| ValueError.

(** The two assertion messages of lines 41-44 (the directory is not part of
    the model). *)
Definition no_files_message : string := "Could not find files".
Definition not_multiple_message : string :=
  "Number of test files is not an exact multiple of slices per structure".

(** The spec's [InvalidCardinality] is the failure of one of the two
    assertions. *)
Definition InvalidCardinality (e : Error) : Prop :=
  e = AssertionError no_files_message \/ e = AssertionError not_multiple_message.

Definition Result (A : Type) : Type := (Error + A)%type.

Definition bind {A B} (c : Result A) (k : A -> Result B) : Result B :=
  match c with
  | inl e => inl e
  | inr a => k a
  end.

Notation "'perform' x '<-' c ';;' k" := (bind c (fun x => k))
  (at level 10, x name, c at level 99, k at level 200).

Definition raise_if_none {A} (e : Error) (o : option A) : Result A :=
  match o with
  | Some a => inr a
  | None => inl e
  end.

(** Lines 38-50: the two assertions on the file listing.  [len % 0] raises
    [ZeroDivisionError], which the second handler logs and re-raises. *)
Definition check_cardinality (train_files : list string) (S : nat) : Result unit :=
  if length train_files =? 0 then inl (AssertionError no_files_message)
  else if S =? 0 then inl ZeroDivisionError
  else if negb (length train_files mod S =? 0)
       then inl (AssertionError not_multiple_message)
  else inr tt.

(** Line 62: one structure name per file; [IndexError] at the first stem
    without a match. *)
Fixpoint extract_names (train_files : list string) : Result (list string) :=
  match train_files with
  | [] => inr []
  | file :: rest =>
      perform name <- raise_if_none IndexError (findall_first (stem file)) ;;
      perform names <- extract_names rest ;;
      inr (string_of_list_ascii name :: names)
  end.

(** Line 63: [data_indexed.at[name, "Label"]] for each name; [KeyError] at
    the first name the table does not hold. *)
Fixpoint lookup_labels (data_indexed : gmap string Z) (names : list string)
  : Result (list Z) :=
  match names with
  | [] => inr []
  | name :: rest =>
      perform label <- raise_if_none (KeyError name) (data_indexed !! name) ;;
      perform labels <- lookup_labels data_indexed rest ;;
      inr (label :: labels)
  end.

(** ** Reports (scikit-learn) *)

(** The sorted unique labels of the two sequences. *)
Definition unique_labels (predicted truth : list Z) : list Z :=
  merge_sort Z.le (remove_dups (predicted ++ truth)).

(** The number of samples with predicted class [a] and true class [b]. *)
Definition cell (predicted truth : list Z) (a b : Z) : nat :=
  length (filter (fun sample => sample = (a, b)) (zip predicted truth)).

Definition ConfusionMatrix : Type := list (list nat).

(** Rows follow the first argument, columns the second. *)
Definition confusion_cells (predicted truth : list Z) : ConfusionMatrix :=
  let labels := unique_labels predicted truth in
  map (fun a => map (fun b => cell predicted truth a b) labels) labels.

(** 1 if the two values are equal, else 0. *)
Definition indicator {A} `{EqDecision A} (x y : A) : nat :=
  if decide (x = y) then 1 else 0.

(** The sum of all cells of a matrix. *)
Definition matrix_sum (m : ConfusionMatrix) : nat := sum_list (map sum_list m).

(** Modelled from the spec: the input validation of the report builder
    ([sklearn.metrics], not part of the repository's sources): it fails when
    the two sequences differ in length or are empty (the spec's
    [ReportInputMismatch], a [ValueError]). *)
Definition check_report_inputs (predicted truth : list Z) : Result unit :=
  if (length predicted =? length truth) && negb (length predicted =? 0)
  then inr tt else inl ValueError.

(** Modelled from the spec: [sklearn.metrics.confusion_matrix], called as
    [confusion_matrix(predicted, true)]: a square matrix indexed by the sorted
    unique labels of both sequences, whose cell (i, j) counts the samples with
    predicted class i (row) and true class j (column). *)
Definition confusion_matrix (predicted truth : list Z) : Result ConfusionMatrix :=
  perform _ <- check_report_inputs predicted truth ;;
  inr (confusion_cells predicted truth).

(** ** Output tables *)

(** One row of a CSV table: the index, the columns ["0"] and ["1"] and
    ["True Score"]. *)
Record TableRow : Type := mkRow {
  row_key : string;
  score_0 : Q;
  score_1 : Q;
  true_score : Z
}.

(** [pandas.DataFrame] of columns of one length; it raises [ValueError] when
    the lengths differ. *)
Definition make_table (keys : list string) (scores : list (Q * Q)) (truth : list Z)
  : Result (list TableRow) :=
  if (length scores =? length keys) && (length truth =? length keys)
  then inr (zip_with (fun k st => mkRow k (fst (fst st)) (snd (fst st)) (snd st))
                     keys (zip scores truth))
  else inl ValueError.

(** ** evaluate *)

Section Evaluate.

(** The precision/recall table of [classification_report] is not computed
    in the model. *)
Variable ClassMetrics : Type.
Variable class_metrics : list Z -> list Z -> ClassMetrics.

(** Modelled from the spec: [sklearn.metrics.classification_report], with
    the same input validation as [confusion_matrix]. *)
Definition classification_report (predicted truth : list Z) : Result ClassMetrics :=
  perform _ <- check_report_inputs predicted truth ;;
  inr (class_metrics predicted truth).

(** What a run writes to the output directory. *)
Record EvaluationResult : Type := mkResult {
  raw_predictions : list TableRow;
  per_image_class : ClassMetrics;
  per_image_conf : ConfusionMatrix;
  averaged_predictions : list TableRow;
  counted_predictions : list TableRow;
  average_class : ClassMetrics;
  average_conf : ConfusionMatrix;
  count_class : ClassMetrics;
  count_conf : ConfusionMatrix
}.

(** The loaded model with its generator: one call gives the predictions of
    the files it is given. *)
Definition Model : Type := list string -> list Prediction.

(** Lines 36-270 of [evaluate], for a model that has loaded:
    [train_files] is the listing of the test directory and [data_indexed]
    the label table indexed by name.  Connecting to the database and reading
    the label table, creating the output directory and writing the CSV files
    are not modelled: the run is followed as it goes when they succeed, and
    the tables and reports written are returned.  [slices_per_structure] is
    a natural number. *)
Definition evaluate (model : Model) (train_files : list string)
    (data_indexed : gmap string Z) (slices_per_structure : nat)
  : Result EvaluationResult :=
  perform _ <- check_cardinality train_files slices_per_structure ;;
  perform names <- extract_names train_files ;;
  perform train_labels <- lookup_labels data_indexed names ;;
  let predictions := model train_files in
  let decoded := predictions_decoded predictions in
  perform raw <- make_table train_files predictions train_labels ;;
  perform image_class <- classification_report decoded train_labels ;;
  perform image_conf <- confusion_matrix decoded train_labels ;;
  let structure_avg := predictions_structure_avg slices_per_structure predictions in
  perform structures <-
    raise_if_none IndexError (first_of_each_structure slices_per_structure names) ;;
  perform true_scores <-
    raise_if_none IndexError (first_of_each_structure slices_per_structure train_labels) ;;
  perform averaged <- make_table structures structure_avg true_scores ;;
  let structure_count := predictions_structure_count slices_per_structure predictions in
  perform counted <- make_table structures structure_count true_scores ;;
  let avg_flat := predictions_struct_avg_flat slices_per_structure predictions in
  let count_flat := predictions_struct_count_flat slices_per_structure predictions in
  perform testing_info_by_structure <-
    raise_if_none (KeyError "")
      (first_of_each_structure slices_per_structure train_labels) ;;
  perform avg_class <- classification_report avg_flat testing_info_by_structure ;;
  perform avg_conf <- confusion_matrix avg_flat testing_info_by_structure ;;
  perform cnt_class <- classification_report count_flat testing_info_by_structure ;;
  perform cnt_conf <- confusion_matrix count_flat testing_info_by_structure ;;
  inr (mkResult raw image_class image_conf averaged counted
                avg_class avg_conf cnt_class cnt_conf).

End Evaluate.

Arguments raw_predictions {ClassMetrics} _.
Arguments per_image_class {ClassMetrics} _.
Arguments per_image_conf {ClassMetrics} _.
Arguments averaged_predictions {ClassMetrics} _.
Arguments counted_predictions {ClassMetrics} _.
Arguments average_class {ClassMetrics} _.
Arguments average_conf {ClassMetrics} _.
Arguments count_class {ClassMetrics} _.
Arguments count_conf {ClassMetrics} _.
Arguments evaluate {ClassMetrics} _ _ _ _ _.
Arguments classification_report {ClassMetrics} _ _ _.

(** ** Logged per-image counts *)

(** Line 90: [[x for x in predictions if x[1] > x[0]]] *)
Definition predictions_1 (predictions : list Prediction) : list Prediction :=
  filter (fun x => gtb (positive x) (negative x) = true) predictions.

(** Line 91: [[x for x in predictions if x[1] < x[0]]] *)
Definition predictions_0 (predictions : list Prediction) : list Prediction :=
  filter (fun x => gtb (negative x) (positive x) = true) predictions.

(** ** predictions.py: the scaling of a slice *)

(** A value of the scaled stack: the division of the scaling can give nan. *)
Inductive Pixel : Type :=
| Finite (q : Q)
| PosInf
| NegInf
| NaN.

(** numpy's [x / y] on finite values; a zero divisor is the [+0.0] that
    [slice.max() - slice.min()] gives for equal extremes. *)
Definition float_div (x y : Q) : Pixel :=
  if Qeq_bool y 0 then
    if Qeq_bool x 0 then NaN
    else if Qle_bool 0 x then PosInf else NegInf
  else Finite (x / y).

(** [slice.min()] and [slice.max()]; numpy raises [ValueError] on an empty
    array ([None]). *)
Definition slice_min (slice : list Q) : option Q :=
  match slice with
  | [] => None
  | x :: rest => Some (foldl Qmin x rest)
  end.

Definition slice_max (slice : list Q) : option Q :=
  match slice with
  | [] => None
  | x :: rest => Some (foldl Qmax x rest)
  end.

(** Line 62: the value of [(slice - slice.min()) / (slice.max() - slice.min())]
    on the values of one slice in row-major order, in exact arithmetic on
    finite values of a floating-point stack.  Overflow of the subtractions
    and the cast of the assignment back into the stack are not modelled. *)
Definition scale_slice (slice : list Q) : option (list Pixel) :=
  match slice_min slice, slice_max slice with
  | Some lo, Some hi => Some (map (fun x => float_div (x - lo) (hi - lo)) slice)
  | _, _ => None
  end.

(** ** prepare_training_data.py *)

(** pathlib's [suffix]: [name[i:]] if [0 < i < len(name) - 1] for
    [i = name.rfind(".")], else the empty string. *)
Definition suffix_of_name (name : list ascii) : list ascii :=
  match rfind_dot name with
  | Some i =>
      if (0 <? i) && (i + 1 <? length name) then drop i name else []
  | None => []
  end.

(** [Path(file).suffix] *)
Definition suffix (file : string) : string :=
  string_of_list_ascii (suffix_of_name (path_name (list_ascii_of_string file))).

(** The order of [sorted] on strings. *)
Definition string_le (a b : string) : Prop := String.leb a b = true.

#[global] Instance string_le_dec (a b : string) : Decision (string_le a b).
Proof. unfold string_le. apply _. Defined.

#[global] Instance string_le_total : Total string_le.
Proof. intros a b. apply String.leb_total. Qed.

(** The assertions of [prepare_training_data], in the order of the source. *)
Inductive PrepareCheck : Type :=
| PhaseDirectoryExists
| CellInfoDirectoryExists
| SpaceGroupDirectoryExists
| OutputDirectoryExists
| SameStructures
| CellInfoFileExists (struct : string)
| SpaceGroupFileExists (struct : string)
| OriginalHandExists (struct : string)
| InverseHandExists (struct : string).

(** How a call fails: a failed assertion, an exception of a collaborator
    (file system, mtz_info, space_group, conversions, delete_temp_files),
    re-raised as it is, the [IndexError] of [space_group[0]] on an empty space
    group, or the [KeyError] of a dictionary lookup. *)
Inductive PrepareFailure (Exn : Type) : Type :=
| AssertionFailed (check : PrepareCheck)
| Raised (e : Exn)
| EmptySpaceGroup (struct : string)
| MissingKey (struct : string).

Arguments AssertionFailed {Exn} check.
Arguments Raised {Exn} e.
Arguments EmptySpaceGroup {Exn} struct.
Arguments MissingKey {Exn} struct.

Section PrepareTrainingData.

(** The state of the file system, paths, the exceptions of the collaborators,
    the cell information and the xyz limits. *)
Variables World Path Exn CellInfo Limits : Type.

(** The calls that write: conversions and the final clean-up. *)
Inductive Call : Type :=
| Convert (source target : Path) (cell : CellInfo) (space_group : string)
          (limits : Limits)
| DeleteTemp (directory : string).

(** The collaborators: pathlib ([Path(s)], [p / s], [str(p)], [p.exists()],
    [p.iterdir()]) and the imported functions.  Those that may write return
    the new state of the file system. *)
Record Collaborators : Type := mkCollaborators {
  path_of : string -> Path;
  joinpath : Path -> string -> Path;
  path_str : Path -> string;
  path_exists : World -> Path -> bool;
  iterdir : World -> Path -> Exn + list Path;
  mtz_get_cell : World -> Path -> Exn + (CellInfo * World);
  textfile_find_space_group : World -> Path -> Exn + (string * World);
  mtz_find_space_group : World -> Path -> Exn + (string * World);
  phase_to_map : World -> Path -> Path -> CellInfo -> string -> Limits -> Exn + World;
  delete_temp_files : World -> string -> Exn + World
}.

Variable ext : Collaborators.

(** What a call did: the writing calls it made, in order (a call that raised
    is the last one), and how it ended. *)
Record Outcome : Type := mkOutcome {
  calls : list Call;
  result : PrepareFailure Exn + World
}.

(** [[struct.stem for struct in directory.iterdir()]] *)
Definition child_stems (w : World) (directory : Path) : Exn + list string :=
  match iterdir ext w directory with
  | inl e => inl e
  | inr children =>
      inr (map (fun child => string_of_list_ascii (stem (path_str ext child))) children)
  end.

(** Lines 64-68: the reader of the space group, by the suffix of
    [space_group_path]. *)
Definition find_space_group (space_group_path : string)
  : World -> Path -> Exn + (string * World) :=
  if decide (suffix space_group_path = ".mtz"%string)
  then mtz_find_space_group ext
  else textfile_find_space_group ext.

(** Lines 70-96: the first loop, over the structures in order. *)
Fixpoint collect_info (cell_info_dir space_group_dir : Path)
    (cell_info_path space_group_path : string)
    (w : World) (structs : list string)
    (cell_info_dict : gmap string CellInfo) (space_group_dict : gmap string string)
  : PrepareFailure Exn + (gmap string CellInfo * gmap string string * World) :=
  match structs with
  | [] => inr (cell_info_dict, space_group_dict, w)
  | struct :: rest =>
      let cell_info_file :=
        joinpath ext (joinpath ext cell_info_dir struct) cell_info_path in
      if negb (path_exists ext w cell_info_file)
      then inl (AssertionFailed (CellInfoFileExists struct))
      else
        match mtz_get_cell ext w cell_info_file with
        | inl e => inl (Raised e)
        | inr (cell, w1) =>
            let space_group_file :=
              joinpath ext (joinpath ext space_group_dir struct) space_group_path in
            if negb (path_exists ext w1 space_group_file)
            then inl (AssertionFailed (SpaceGroupFileExists struct))
            else
              match find_space_group space_group_path w1 space_group_file with
              | inl e => inl (Raised e)
              | inr (space_group, w2) =>
                  collect_info cell_info_dir space_group_dir
                    cell_info_path space_group_path w2 rest
                    (<[struct := cell]> cell_info_dict)
                    (<[struct := space_group]> space_group_dict)
              end
        end
  end.

(** [phase_dir / struct / directory / (struct + tail)] *)
Definition hand (phase_dir : Path) (struct directory tail : string) : Path :=
  joinpath ext (joinpath ext (joinpath ext phase_dir struct) directory)
           (struct +:+ tail).

(** Lines 104-114: the two phase files of a structure: those under the space
    group's directory, or under the directory with [":H"] appended when the
    space group starts with ["R"] and the original hand is not there. *)
Definition find_hands (phase_dir : Path) (w : World) (struct space_group : string)
  : PrepareFailure Exn + (Path * Path) :=
  match space_group with
  | EmptyString => inl (EmptySpaceGroup struct)
  | String first _ =>
      let plain := hand phase_dir struct space_group ".phs" in
      let directory :=
        if ascii_eqb first "R"%char && negb (path_exists ext w plain)
        then space_group +:+ ":H" else space_group in
      let original_hand := hand phase_dir struct directory ".phs" in
      let inverse_hand := hand phase_dir struct directory "_i.phs" in
      if negb (path_exists ext w original_hand)
      then inl (AssertionFailed (OriginalHandExists struct))
      else if negb (path_exists ext w inverse_hand)
      then inl (AssertionFailed (InverseHandExists struct))
      else inr (original_hand, inverse_hand)
  end.

(** Lines 101-141: the second loop, over the structures in order. *)
Fixpoint convert_structs (phase_dir output_dir : Path) (xyz_limits : Limits)
    (cell_info_dict : gmap string CellInfo) (space_group_dict : gmap string string)
    (w : World) (structs : list string) : Outcome :=
  match structs with
  | [] => mkOutcome [] (inr w)
  | struct :: rest =>
      match space_group_dict !! struct with
      | None => mkOutcome [] (inl (MissingKey struct))
      | Some space_group =>
          match find_hands phase_dir w struct space_group with
          | inl failure => mkOutcome [] (inl failure)
          | inr (original_hand, inverse_hand) =>
              match cell_info_dict !! struct with
              | None => mkOutcome [] (inl (MissingKey struct))
              | Some cell =>
                  let original :=
                    Convert original_hand (joinpath ext output_dir (struct +:+ ".map"))
                            cell space_group xyz_limits in
                  let inverse :=
                    Convert inverse_hand (joinpath ext output_dir (struct +:+ "_i.map"))
                            cell space_group xyz_limits in
                  match phase_to_map ext w original_hand
                          (joinpath ext output_dir (struct +:+ ".map"))
                          cell space_group xyz_limits with
                  | inl e => mkOutcome [original] (inl (Raised e))
                  | inr w1 =>
                      match phase_to_map ext w1 inverse_hand
                              (joinpath ext output_dir (struct +:+ "_i.map"))
                              cell space_group xyz_limits with
                      | inl e => mkOutcome [original; inverse] (inl (Raised e))
                      | inr w2 =>
                          let later :=
                            convert_structs phase_dir output_dir xyz_limits
                              cell_info_dict space_group_dict w2 rest in
                          mkOutcome (original :: inverse :: calls later) (result later)
                      end
                  end
              end
          end
      end
  end.

(** The two maps written for a structure: [output_dir / (struct + ".map")]
    and [output_dir / (struct + "_i.map")]. *)
Definition targets_of (output_dir : Path) (struct : string) : list Path :=
  [joinpath ext output_dir (struct +:+ ".map");
   joinpath ext output_dir (struct +:+ "_i.map")].

(** Lines 145-148, reached when both loops have ended without exception. *)
Definition clean_up (output_directory : string) (delete_temp : bool)
    (converted : Outcome) : Outcome :=
  match result converted with
  | inl failure => converted
  | inr w2 =>
      if delete_temp
      then
        match delete_temp_files ext w2 output_directory with
        | inl e =>
            mkOutcome (calls converted ++ [DeleteTemp output_directory])
                      (inl (Raised e))
        | inr w3 =>
            mkOutcome (calls converted ++ [DeleteTemp output_directory]) (inr w3)
        end
      else converted
  end.

(** Lines 9-150. *)
Definition prepare_training_data (w : World)
    (phase_directory output_directory cell_info_directory cell_info_path
       space_group_directory space_group_path : string)
    (xyz_limits : Limits) (delete_temp : bool) : Outcome :=
  let phase_dir := path_of ext phase_directory in
  let cell_info_dir := path_of ext cell_info_directory in
  let space_group_dir := path_of ext space_group_directory in
  let output_dir := path_of ext output_directory in
  if negb (path_exists ext w phase_dir)
  then mkOutcome [] (inl (AssertionFailed PhaseDirectoryExists))
  else if negb (path_exists ext w cell_info_dir)
  then mkOutcome [] (inl (AssertionFailed CellInfoDirectoryExists))
  else if negb (path_exists ext w space_group_dir)
  then mkOutcome [] (inl (AssertionFailed SpaceGroupDirectoryExists))
  else if negb (path_exists ext w output_dir)
  then mkOutcome [] (inl (AssertionFailed OutputDirectoryExists))
  else
    match child_stems w phase_dir with
    | inl e => mkOutcome [] (inl (Raised e))
    | inr phase_structs =>
    match child_stems w cell_info_dir with
    | inl e => mkOutcome [] (inl (Raised e))
    | inr cell_info_structs =>
    match child_stems w space_group_dir with
    | inl e => mkOutcome [] (inl (Raised e))
    | inr space_group_structs =>
        if decide (phase_structs = cell_info_structs
                   /\ cell_info_structs = space_group_structs)
        then
          let sorted_structs := merge_sort string_le phase_structs in
          match collect_info cell_info_dir space_group_dir
                  cell_info_path space_group_path w sorted_structs ∅ ∅ with
          | inl failure => mkOutcome [] (inl failure)
          | inr (cell_info_dict, space_group_dict, w1) =>
              clean_up output_directory delete_temp
                (convert_structs phase_dir output_dir xyz_limits
                   cell_info_dict space_group_dict w1 sorted_structs)
          end
        else mkOutcome [] (inl (AssertionFailed SameStructures))
    end end end.

(** The two conversions of a structure, in order: the original hand
    [struct.phs] to [struct.map] and the inverse hand [struct_i.phs] to
    [struct_i.map], both hands from the directory of the space group or from
    the one with [":H"] appended, with the cell information and the space group
    stored for the structure. *)
Definition conversions_of (phase_dir output_dir : Path) (xyz_limits : Limits)
    (cell_info_dict : gmap string CellInfo) (space_group_dict : gmap string string)
    (struct : string) (pair : list Call) : Prop :=
  exists space_group cell directory,
    space_group_dict !! struct = Some space_group
    /\ cell_info_dict !! struct = Some cell
    /\ (directory = space_group \/ directory = space_group +:+ ":H")
    /\ pair =
       [Convert (hand phase_dir struct directory ".phs")
                (joinpath ext output_dir (struct +:+ ".map"))
                cell space_group xyz_limits;
        Convert (hand phase_dir struct directory "_i.phs")
                (joinpath ext output_dir (struct +:+ "_i.map"))
                cell space_group xyz_limits].

(** The part of a run before the second loop went through: the four
    directories exist, the three listings have the same stems in the same
    order, and the first loop collected the cell information and space group
    of every structure. *)
Definition validated (w : World)
    (phase_directory output_directory cell_info_directory cell_info_path
       space_group_directory space_group_path : string)
    (structs : list string) (cells : gmap string CellInfo)
    (groups : gmap string string) (w1 : World) : Prop :=
  path_exists ext w (path_of ext phase_directory) = true
  /\ path_exists ext w (path_of ext cell_info_directory) = true
  /\ path_exists ext w (path_of ext space_group_directory) = true
  /\ path_exists ext w (path_of ext output_directory) = true
  /\ child_stems w (path_of ext phase_directory) = inr structs
  /\ child_stems w (path_of ext cell_info_directory) = inr structs
  /\ child_stems w (path_of ext space_group_directory) = inr structs
  /\ collect_info (path_of ext cell_info_directory)
       (path_of ext space_group_directory) cell_info_path space_group_path
       w (merge_sort string_le structs) ∅ ∅ = inr (cells, groups, w1).

End PrepareTrainingData.

Arguments Convert {Path CellInfo Limits} _ _ _ _ _.
Arguments DeleteTemp {Path CellInfo Limits} _.

(** The file a call writes, for a conversion. *)
Definition call_target {Path CellInfo Limits} (c : Call Path CellInfo Limits)
  : option Path :=
  match c with
  | Convert _ target _ _ _ => Some target
  | DeleteTemp _ => None
  end.

Arguments calls {World Path Exn CellInfo Limits} _.
Arguments result {World Path Exn CellInfo Limits} _.
Arguments mkOutcome {World Path Exn CellInfo Limits} _ _.
Arguments path_of {World Path Exn CellInfo Limits} _ _.
Arguments joinpath {World Path Exn CellInfo Limits} _ _ _.
Arguments path_str {World Path Exn CellInfo Limits} _ _.
Arguments path_exists {World Path Exn CellInfo Limits} _ _ _.
Arguments iterdir {World Path Exn CellInfo Limits} _ _ _.
Arguments phase_to_map {World Path Exn CellInfo Limits} _ _ _ _ _ _ _.
Arguments delete_temp_files {World Path Exn CellInfo Limits} _ _ _.
Arguments child_stems {World Path Exn CellInfo Limits} _ _ _.
Arguments find_space_group {World Path Exn CellInfo Limits} _ _.
Arguments collect_info {World Path Exn CellInfo Limits} _ _ _ _ _ _ _ _ _.
Arguments hand {World Path Exn CellInfo Limits} _ _ _ _ _.
Arguments find_hands {World Path Exn CellInfo Limits} _ _ _ _ _.
Arguments targets_of {World Path Exn CellInfo Limits} _ _ _.
Arguments convert_structs {World Path Exn CellInfo Limits} _ _ _ _ _ _ _ _.
Arguments conversions_of {World Path Exn CellInfo Limits} _ _ _ _ _ _ _ _.
Arguments clean_up {World Path Exn CellInfo Limits} _ _ _ _.
Arguments prepare_training_data {World Path Exn CellInfo Limits} _ _ _ _ _ _ _ _ _ _.
Arguments validated {World Path Exn CellInfo Limits} _ _ _ _ _ _ _ _ _ _ _ _.

(** A small file system for examples: paths are strings joined with ["/"],
    [present] tells which paths exist and [listing] gives the children of a
    directory; every structure has space group [space_group] and the writing
    calls succeed. *)
Definition example_collaborators (present : string -> bool)
    (listing : string -> list string) (space_group : string)
  : Collaborators unit string unit unit unit :=
  {| path_of := fun s => s;
     joinpath := fun p s => p +:+ "/" +:+ s;
     path_str := fun p => p;
     path_exists := fun _ p => present p;
     iterdir := fun _ p => inr (listing p);
     mtz_get_cell := fun _ _ => inr (tt, tt);
     textfile_find_space_group := fun _ _ => inr (space_group, tt);
     mtz_find_space_group := fun _ _ => inr (space_group, tt);
     phase_to_map := fun _ _ _ _ _ _ => inr tt;
     delete_temp_files := fun _ _ => inr tt |}.

(** * Properties *)

(** ** Slicing *)

Lemma structure_slice_succ {A} (S i : nat) (xs : list A) :
  structure_slice S (Datatypes.S i) xs = structure_slice S i (drop S xs).
Proof.
  unfold structure_slice. rewrite drop_drop. do 2 f_equal. lia.
Qed.

Lemma join_slices {A} (S n : nat) (xs : list A) :
  mjoin (map (fun i => structure_slice S i xs) (seq 0 n)) = take (n * S) xs.
Proof.
  revert xs. induction n as [|n IH]; intros xs; simpl.
  - done.
  - rewrite <- seq_shift, map_map.
    rewrite (map_ext _ (fun i => structure_slice S i (drop S xs)))
      by (intros; apply structure_slice_succ).
    rewrite IH. unfold structure_slice.
    rewrite Nat.mul_0_r, drop_0, <- take_take_drop. done.
Qed.

Lemma batches_length {A} (S : nat) (xs : list A) :
  length (batches S xs) = length xs / S.
Proof. unfold batches, structure_range. by rewrite length_map, length_seq. Qed.

Lemma batches_lookup {A} (S i : nat) (xs : list A) :
  i < length xs / S -> batches S xs !! i = Some (structure_slice S i xs).
Proof.
  intros Hi. unfold batches, structure_range.
  rewrite list_lookup_fmap, lookup_seq_lt by done. done.
Qed.

Lemma div_mul_le (L S i : nat) : i < L / S -> S * i + S <= L.
Proof.
  intros Hi. destruct S as [|S]; [simpl in Hi; lia|].
  pose proof (Nat.div_mod_eq L (Datatypes.S S)). nia.
Qed.

Lemma structure_slice_length {A} (S i : nat) (xs : list A) :
  i < length xs / S -> length (structure_slice S i xs) = S.
Proof.
  intros Hi%div_mul_le. unfold structure_slice.
  rewrite length_take, length_drop. lia.
Qed.

Lemma structure_slice_lookup {A} (S i j : nat) (xs : list A) :
  j < S -> structure_slice S i xs !! j = xs !! (S * i + j).
Proof.
  intros Hj. unfold structure_slice.
  rewrite lookup_take_lt, lookup_drop by done. done.
Qed.

Lemma batches_join {A} (S : nat) (xs : list A) :
  length xs mod S = 0 -> mjoin (batches S xs) = xs.
Proof.
  intros Hmod. unfold batches, structure_range. rewrite join_slices.
  apply take_ge. pose proof (Nat.div_mod_eq (length xs) S). lia.
Qed.

Lemma structure_slice_map {A B} (f : A -> B) (S i : nat) (xs : list A) :
  structure_slice S i (map f xs) = map f (structure_slice S i xs).
Proof. unfold structure_slice. by rewrite <- fmap_drop, <- fmap_take. Qed.

Lemma predictions_structure_avg_batches (S : nat) (predictions : list Prediction) :
  predictions_structure_avg S predictions =
  map (fun b => (mean_negative b, mean_positive b)) (batches S predictions).
Proof. unfold predictions_structure_avg, batches. by rewrite map_map. Qed.

Lemma predictions_structure_count_batches (S : nat) (predictions : list Prediction) :
  predictions_structure_count S predictions =
  map (fun b => (count_fraction_negative S b, count_fraction S b))
      (batches S predictions).
Proof.
  unfold predictions_structure_count, batches. rewrite map_map.
  apply map_ext. intros i. unfold predictions_by_result.
  by rewrite structure_slice_map.
Qed.

(** C1. For a prediction sequence of length L > 0 and S slices per structure
    with L % S = 0, the aggregation step ranges over exactly L / S batches of
    exactly S elements each; batch i holds the elements S*i .. S*i + S - 1 of
    the sequence in their order (contiguous and non-overlapping), the batches
    concatenated in order give the sequence back, and both per-structure
    tables are computed batch by batch. *)
Theorem batches_partition (predictions : list Prediction) (S : nat) :
  0 < length predictions ->
  length predictions mod S = 0 ->
  length (batches S predictions) = length predictions / S
  /\ Forall (fun b => length b = S) (batches S predictions)
  /\ (forall i j, i < length predictions / S -> j < S ->
        batches S predictions !! i ≫= (fun b => b !! j) = predictions !! (S * i + j))
  /\ mjoin (batches S predictions) = predictions
  /\ predictions_structure_avg S predictions =
       map (fun b => (mean_negative b, mean_positive b)) (batches S predictions)
  /\ predictions_structure_count S predictions =
       map (fun b => (count_fraction_negative S b, count_fraction S b))
           (batches S predictions).
Proof.
  intros Hpos Hmod. split; [apply batches_length|]. split.
  { apply Forall_lookup. intros i b Hb.
    assert (Hi : i < length predictions / S).
    { rewrite <- (batches_length S). by eapply lookup_lt_Some. }
    rewrite batches_lookup in Hb by done. injection Hb as <-.
    by apply structure_slice_length. }
  split.
  { intros i j Hi Hj. rewrite batches_lookup by done. simpl.
    by apply structure_slice_lookup. }
  split; [by apply batches_join|].
  split; [apply predictions_structure_avg_batches
         |apply predictions_structure_count_batches].
Qed.

Lemma batches_partition_witness :
  let predictions : list Prediction :=
    [(1 # 4, 3 # 4); (1 # 2, 1 # 2); (3 # 4, 1 # 4); (1 # 8, 7 # 8)]%Q in
  length (batches 2 predictions) = 2
  /\ mjoin (batches 2 predictions) = predictions.
Proof.
  intros predictions.
  destruct (batches_partition predictions 2) as (Hn & _ & _ & Hjoin & _).
  - simpl. lia.
  - reflexivity.
  - split; [exact Hn | exact Hjoin].
Defined.

(** ** Decisions *)

Lemma gtb_lt (a b : Q) : gtb a b = true <-> (b < a)%Q.
Proof.
  unfold gtb. rewrite negb_true_iff, <- not_true_iff_false, Qle_bool_iff.
  split; [apply Qnot_le_lt | apply Qlt_not_le].
Qed.

Lemma gtb_le (a b : Q) : gtb a b = false <-> (a <= b)%Q.
Proof. unfold gtb. by rewrite negb_false_iff, Qle_bool_iff. Qed.

Lemma int_of_bool_1 (b : bool) : int_of_bool b = 1%Z <-> b = true.
Proof. by destruct b. Qed.

Lemma int_of_bool_0 (b : bool) : int_of_bool b = 0%Z <-> b = false.
Proof. by destruct b. Qed.

Lemma decide_half_1 (score : Q) : decide_half score = 1%Z <-> (1 # 2 < score)%Q.
Proof. unfold decide_half. by rewrite int_of_bool_1, gtb_lt. Qed.

Lemma decide_half_0 (score : Q) : decide_half score = 0%Z <-> (score <= 1 # 2)%Q.
Proof. unfold decide_half. by rewrite int_of_bool_0, gtb_le. Qed.

Lemma decide_half_cases (score : Q) :
  decide_half score = 1%Z \/ decide_half score = 0%Z.
Proof. unfold decide_half. destruct (gtb _ _); auto. Qed.

(** C4. The decision of slice i compares its two channels directly: it is 1
    if the positive channel is strictly greater than the negative one and 0
    otherwise; in particular equal channels give 0. *)
Theorem predictions_decoded_pairwise
    (predictions : list Prediction) (i : nat) (pred : Prediction) :
  predictions !! i = Some pred ->
  ((negative pred < positive pred)%Q -> predictions_decoded predictions !! i = Some 1%Z)
  /\ (~ (negative pred < positive pred)%Q ->
        predictions_decoded predictions !! i = Some 0%Z)
  /\ ((positive pred == negative pred)%Q ->
        predictions_decoded predictions !! i = Some 0%Z).
Proof.
  intros Hi. unfold predictions_decoded.
  rewrite list_lookup_fmap, Hi. simpl.
  split; [|split].
  - intros Hlt. f_equal. by apply int_of_bool_1, gtb_lt.
  - intros Hnlt. f_equal. apply int_of_bool_0, gtb_le. by apply Qnot_lt_le.
  - intros Heq. f_equal. apply int_of_bool_0, gtb_le. rewrite Heq. apply Qle_refl.
Qed.

Lemma predictions_decoded_pairwise_witness :
  predictions_decoded [(3 # 10, 7 # 10); (1 # 2, 1 # 2)]%Q !! 1 = Some 0%Z.
Proof.
  apply (predictions_decoded_pairwise [(3 # 10, 7 # 10); (1 # 2, 1 # 2)]%Q 1
                                      (1 # 2, 1 # 2)%Q).
  - reflexivity.
  - reflexivity.
Defined.

(** ** Counting and averaging over one batch *)

Lemma inject_length_cons {A} (x : A) (xs : list A) :
  (inject_Z (Z.of_nat (length (x :: xs))) == inject_Z (Z.of_nat (length xs)) + 1)%Q.
Proof.
  simpl length. rewrite Nat2Z.inj_succ, <- Z.add_1_r, inject_Z_plus. reflexivity.
Qed.

Lemma positive_votes_bounds (batch : list Prediction) :
  (0 <= sum_Z (map snd (predictions_by_result batch)) <= Z.of_nat (length batch))%Z.
Proof.
  induction batch as [|p batch IH]; simpl; [lia|].
  destruct (gtb (positive p) (negative p)); simpl; lia.
Qed.

Lemma negative_votes_bounds (batch : list Prediction) :
  (0 <= sum_Z (map fst (predictions_by_result batch)) <= Z.of_nat (length batch))%Z.
Proof.
  induction batch as [|p batch IH]; simpl; [lia|].
  destruct (gtb (negative p) (positive p)); simpl; lia.
Qed.

Lemma positive_votes_all (batch : list Prediction) :
  sum_Z (map snd (predictions_by_result batch)) = Z.of_nat (length batch) ->
  Forall (fun p => (negative p < positive p)%Q) batch.
Proof.
  induction batch as [|p batch IH]; intros Hsum; [constructor|].
  pose proof (positive_votes_bounds batch) as Hb.
  simpl in Hsum. destruct (gtb (positive p) (negative p)) eqn:Hp; simpl in Hsum.
  - constructor; [by apply gtb_lt | apply IH; lia].
  - lia.
Qed.

Lemma positive_votes_none (batch : list Prediction) :
  sum_Z (map snd (predictions_by_result batch)) = 0%Z ->
  Forall (fun p => ~ (negative p < positive p)%Q) batch.
Proof.
  induction batch as [|p batch IH]; intros Hsum; [constructor|].
  pose proof (positive_votes_bounds batch) as Hb.
  simpl in Hsum. destruct (gtb (positive p) (negative p)) eqn:Hp; simpl in Hsum.
  - lia.
  - constructor; [|apply IH; lia].
    apply Qle_not_lt. by apply gtb_le.
Qed.

Lemma inject_nat_pos (n : nat) : 0 < n -> (0 < inject_Z (Z.of_nat n))%Q.
Proof. intros Hn. change 0%Q with (inject_Z 0). rewrite <- Zlt_Qlt. lia. Qed.

Lemma fraction_one (S : nat) (column : list Z) :
  0 < S -> (fraction S column == 1)%Q <-> sum_Z column = Z.of_nat S.
Proof.
  intros HS. pose proof (inject_nat_pos S HS) as Hpos. unfold fraction. split.
  - intros Heq. apply inject_Z_injective.
    rewrite <- (Qmult_div_r (inject_Z (sum_Z column)) (inject_Z (Z.of_nat S))) by lra.
    rewrite Heq. lra.
  - intros ->. field. lra.
Qed.

Lemma fraction_zero (S : nat) (column : list Z) :
  0 < S -> (fraction S column == 0)%Q <-> sum_Z column = 0%Z.
Proof.
  intros HS. pose proof (inject_nat_pos S HS) as Hpos. unfold fraction. split.
  - intros Heq. apply inject_Z_injective.
    rewrite <- (Qmult_div_r (inject_Z (sum_Z column)) (inject_Z (Z.of_nat S))) by lra.
    rewrite Heq. change (inject_Z 0) with 0%Q. lra.
  - intros ->. change (inject_Z 0) with 0%Q. field. lra.
Qed.

Lemma sum_above_half (xs : list Q) :
  Forall (fun x => (1 # 2 < x)%Q) xs ->
  ((1 # 2) * inject_Z (Z.of_nat (length xs)) <= sum_Q xs)%Q.
Proof.
  induction 1 as [|x xs Hx _ IH].
  - unfold Qle. simpl. lia.
  - rewrite inject_length_cons. simpl sum_Q. lra.
Qed.

Lemma sum_below_half (xs : list Q) :
  Forall (fun x => (x <= 1 # 2)%Q) xs ->
  (sum_Q xs <= (1 # 2) * inject_Z (Z.of_nat (length xs)))%Q.
Proof.
  induction 1 as [|x xs Hx _ IH].
  - unfold Qle. simpl. lia.
  - rewrite inject_length_cons. simpl sum_Q. lra.
Qed.

Lemma mean_above_half (xs : list Q) :
  xs <> [] -> Forall (fun x => (1 # 2 < x)%Q) xs -> (1 # 2 < mean xs)%Q.
Proof.
  intros Hne Hall. destruct Hall as [|x xs Hx Hall]; [done|].
  pose proof (sum_above_half xs Hall) as Hsum.
  assert (Hlen : (0 < inject_Z (Z.of_nat (length (x :: xs))))%Q)
    by (apply inject_nat_pos; simpl; lia).
  unfold mean. apply Qlt_shift_div_l; [done|].
  rewrite inject_length_cons. simpl sum_Q. lra.
Qed.

Lemma mean_below_half (xs : list Q) :
  Forall (fun x => (x <= 1 # 2)%Q) xs -> (mean xs <= 1 # 2)%Q.
Proof.
  intros Hall. destruct xs as [|x xs].
  - unfold mean, Qle. simpl. lia.
  - pose proof (sum_below_half _ Hall) as Hsum.
    assert (Hlen : (0 < inject_Z (Z.of_nat (length (x :: xs))))%Q)
      by (apply inject_nat_pos; simpl; lia).
    unfold mean. apply Qle_shift_div_r; [done|]. lra.
Qed.

Lemma Forall_both {A} (P Q R : A -> Prop) (l : list A) :
  Forall P l -> Forall Q l -> (forall x, P x -> Q x -> R x) -> Forall R l.
Proof. rewrite !Forall_forall. auto. Qed.

Lemma batch_of_batches (S i : nat) (predictions batch : list Prediction) :
  batches S predictions !! i = Some batch ->
  0 < S /\ length batch = S /\ batch = structure_slice S i predictions.
Proof.
  intros Hb.
  assert (Hi : i < length predictions / S).
  { rewrite <- (batches_length S). by eapply lookup_lt_Some. }
  rewrite batches_lookup in Hb by done. injection Hb as <-.
  split; [|split; [by apply structure_slice_length | done]].
  destruct S; [simpl in Hi; lia | lia].
Qed.

Lemma flat_lookup (S i : nat) (predictions batch : list Prediction) :
  batches S predictions !! i = Some batch ->
  predictions_struct_avg_flat S predictions !! i
    = Some (decide_half (mean_positive batch))
  /\ predictions_struct_count_flat S predictions !! i
    = Some (decide_half (count_fraction S batch)).
Proof.
  intros Hb. unfold predictions_struct_avg_flat, predictions_struct_count_flat.
  rewrite predictions_structure_avg_batches, predictions_structure_count_batches.
  by rewrite !list_lookup_fmap, Hb.
Qed.

(** The claim of C2 fails for the average-based decision: the single slice
    (0.125, 0.25) is positive-dominant, so its batch has count fraction 1 and
    count-based decision 1, but its mean positive score 0.25 is not above 0.5
    and the average-based decision is 0. *)
Lemma decision_consistency_counterexample :
  batches 1 [(1 # 8, 1 # 4)%Q] !! 0 = Some [(1 # 8, 1 # 4)%Q]
  /\ (count_fraction 1 [(1 # 8, 1 # 4)%Q] == 1)%Q
  /\ predictions_struct_count_flat 1 [(1 # 8, 1 # 4)%Q] !! 0 = Some 1%Z
  /\ predictions_struct_avg_flat 1 [(1 # 8, 1 # 4)%Q] !! 0 = Some 0%Z.
Proof. repeat split. Qed.

(** C2, amended. For batch i with count fraction 1, every slice is
    positive-dominant and the count-based decision is 1; with count fraction
    0, no slice is positive-dominant and the count-based decision is 0.  The
    average-based decision follows the mean positive score alone; it agrees
    with the count-based one (1, respectively 0) when the two channels of
    every slice of the batch sum to 1. *)
Theorem decision_consistency
    (S : nat) (predictions : list Prediction) (i : nat) (batch : list Prediction) :
  batches S predictions !! i = Some batch ->
  exists avg cnt,
    predictions_struct_avg_flat S predictions !! i = Some avg
    /\ predictions_struct_count_flat S predictions !! i = Some cnt
    /\ ((count_fraction S batch == 1)%Q ->
          cnt = 1%Z
          /\ Forall (fun p => (negative p < positive p)%Q) batch
          /\ (Forall (fun p => (negative p + positive p == 1)%Q) batch -> avg = 1%Z))
    /\ ((count_fraction S batch == 0)%Q ->
          cnt = 0%Z
          /\ Forall (fun p => ~ (negative p < positive p)%Q) batch
          /\ (Forall (fun p => (negative p + positive p == 1)%Q) batch -> avg = 0%Z)).
Proof.
  intros Hb. destruct (flat_lookup _ _ _ _ Hb) as [Havg Hcnt].
  destruct (batch_of_batches _ _ _ _ Hb) as (HS & Hlen & _).
  eexists _, _. split; [exact Havg|]. split; [exact Hcnt|]. split.
  - intros Hone.
    assert (Hall : Forall (fun p => (negative p < positive p)%Q) batch).
    { apply positive_votes_all. rewrite Hlen.
      by apply (fraction_one S). }
    split; [|split; [done|]].
    + apply decide_half_1. rewrite Hone. reflexivity.
    + intros Hnorm. apply decide_half_1. unfold mean_positive.
      apply mean_above_half.
      * destruct batch; [simpl in Hlen; lia | done].
      * apply Forall_fmap. apply (Forall_both _ _ _ _ Hall Hnorm).
        intros p Hlt Heq. simpl. lra.
  - intros Hzero.
    assert (Hall : Forall (fun p => ~ (negative p < positive p)%Q) batch).
    { apply positive_votes_none. by apply (fraction_zero S). }
    split; [|split; [done|]].
    + apply decide_half_0. rewrite Hzero. discriminate.
    + intros Hnorm. apply decide_half_0. unfold mean_positive.
      apply mean_below_half.
      apply Forall_fmap. apply (Forall_both _ _ _ _ Hall Hnorm).
      intros p Hnlt Heq. simpl. apply Qnot_lt_le in Hnlt. lra.
Qed.

Lemma decision_consistency_witness :
  exists avg cnt,
    predictions_struct_avg_flat 2 [(1 # 4, 3 # 4); (2 # 5, 3 # 5)]%Q !! 0 = Some avg
    /\ predictions_struct_count_flat 2 [(1 # 4, 3 # 4); (2 # 5, 3 # 5)]%Q !! 0 = Some cnt
    /\ cnt = 1%Z /\ avg = 1%Z.
Proof.
  destruct (decision_consistency 2 [(1 # 4, 3 # 4); (2 # 5, 3 # 5)]%Q 0
              [(1 # 4, 3 # 4); (2 # 5, 3 # 5)]%Q)
    as (avg & cnt & Havg & Hcnt & Hone & _).
  - reflexivity.
  - exists avg, cnt. split; [exact Havg|]. split; [exact Hcnt|].
    destruct Hone as (Hc & _ & Ha); [reflexivity|].
    split; [exact Hc|]. apply Ha.
    repeat constructor.
Defined.

(** Without a slice of equal channels, each slice votes for exactly one
    class. *)
Lemma votes_without_ties (batch : list Prediction) :
  Forall (fun p => ~ (positive p == negative p)%Q) batch ->
  (sum_Z (map fst (predictions_by_result batch))
   + sum_Z (map snd (predictions_by_result batch)))%Z = Z.of_nat (length batch).
Proof.
  induction 1 as [|p batch Hp _ IH]; [done|].
  simpl length. rewrite Nat2Z.inj_succ. simpl.
  destruct (gtb (negative p) (positive p)) eqn:Hn;
    destruct (gtb (positive p) (negative p)) eqn:Hq; simpl.
  - apply gtb_lt in Hn, Hq. lra.
  - lia.
  - lia.
  - apply gtb_le in Hn, Hq. exfalso. apply Hp. lra.
Qed.

Lemma count_fractions_without_ties (S : nat) (batch : list Prediction) :
  0 < S -> length batch = S ->
  Forall (fun p => ~ (positive p == negative p)%Q) batch ->
  (count_fraction_negative S batch == 1 - count_fraction S batch)%Q.
Proof.
  intros HS Hlen Hties. pose proof (inject_nat_pos S HS) as Hpos.
  pose proof (votes_without_ties batch Hties) as Hsum. rewrite Hlen in Hsum.
  unfold count_fraction_negative, count_fraction, fraction.
  rewrite <- Hsum, inject_Z_plus in *. field. lra.
Qed.

(** C3 at a slice of equal channels: the slice (0.5, 0.5) is classified 0 by
    the per-slice decision, yet it is counted in neither column of the
    counted table, whose row is (0, 0) and does not sum to 1. *)
Theorem count_fractions_tie :
  predictions_decoded [(1 # 2, 1 # 2)%Q] = [0%Z]
  /\ predictions_by_result [(1 # 2, 1 # 2)%Q] = [(0%Z, 0%Z)]
  /\ (count_fraction_negative 1 [(1 # 2, 1 # 2)%Q] == 0)%Q
  /\ (count_fraction 1 [(1 # 2, 1 # 2)%Q] == 0)%Q
  /\ ~ (count_fraction_negative 1 [(1 # 2, 1 # 2)%Q]
        == 1 - count_fraction 1 [(1 # 2, 1 # 2)%Q])%Q.
Proof. repeat split. discriminate. Qed.

(** ** The structure-name pattern *)

Lemma lookahead_spec (s : list ascii) :
  lookahead s = true <->
  exists d rest, s = underscore :: d :: rest /\ is_digit d = true.
Proof.
  destruct s as [|u [|d rest]]; simpl.
  - split; [done | intros (? & ? & ? & _); done].
  - split; [done | intros (? & ? & ? & _); done].
  - unfold ascii_eqb. rewrite andb_true_iff, bool_decide_eq_true. split.
    + intros [-> Hd]. eauto.
    + intros (d' & rest' & Heq & Hd). by simplify_eq.
Qed.

Lemma match_at_cons (c : ascii) (t : list ascii) :
  match_at (c :: t) =
  match (if ascii_eqb c newline then None else match_at t) with
  | Some m => Some (c :: m)
  | None => if lookahead (c :: t) then Some [] else None
  end.
Proof. reflexivity. Qed.

Lemma match_at_lookahead (s : list ascii) :
  lookahead s = true -> is_Some (match_at s).
Proof.
  intros Hla. destruct s as [|c t]; [done|]. rewrite match_at_cons, Hla.
  destruct (if ascii_eqb c newline then None else match_at t); by eexists.
Qed.

Lemma match_at_some (s m : list ascii) :
  match_at s = Some m -> has_index_suffix s.
Proof.
  revert m. induction s as [|c t IH]; intros m; [done|].
  rewrite match_at_cons.
  destruct (lookahead (c :: t)) eqn:Hla.
  { intros _. apply lookahead_spec in Hla as (d & rest & Heq & Hd).
    by exists [], d, rest. }
  destruct (ascii_eqb c newline); [done|].
  destruct (match_at t) as [m'|]; [|done]. intros _.
  destruct (IH m' eq_refl) as (pre & d & rest & Heq & Hd).
  exists (c :: pre), d, rest. by rewrite Heq.
Qed.

Lemma findall_first_cons (c : ascii) (t : list ascii) :
  findall_first (c :: t) =
  match match_at (c :: t) with
  | Some m => Some m
  | None => findall_first t
  end.
Proof. reflexivity. Qed.

Lemma findall_first_none (s : list ascii) :
  findall_first s = None <-> ~ has_index_suffix s.
Proof.
  split.
  - intros Hnone (pre & d & rest & -> & Hd).
    induction pre as [|c pre IH].
    + destruct (match_at_lookahead (underscore :: d :: rest)) as [m Hm].
      { apply lookahead_spec. eauto. }
      simpl app in Hnone. rewrite findall_first_cons, Hm in Hnone. done.
    + simpl app in Hnone. rewrite findall_first_cons in Hnone.
      destruct (match_at (c :: pre ++ underscore :: d :: rest)); [done|].
      by apply IH.
  - intros Hno. induction s as [|c t IH]; [done|].
    rewrite findall_first_cons.
    destruct (match_at (c :: t)) as [m|] eqn:Hm.
    + exfalso. apply Hno. by eapply match_at_some.
    + apply IH. intros (pre & d & rest & -> & Hd). apply Hno.
      by exists (c :: pre), d, rest.
Qed.

(** ** The stages of evaluate *)

Lemma check_cardinality_ok (train_files : list string) (S : nat) :
  check_cardinality train_files S = inr tt <->
  0 < length train_files /\ length train_files mod S = 0.
Proof.
  unfold check_cardinality.
  destruct (Nat.eqb_spec (length train_files) 0) as [H0|H0].
  { split; [done | lia]. }
  destruct (Nat.eqb_spec S 0) as [->|HS].
  { split; [done|]. simpl. lia. }
  destruct (Nat.eqb_spec (length train_files mod S) 0) as [Hm|Hm]; simpl.
  - split; [lia | done].
  - split; [done | lia].
Qed.

Lemma extract_names_error (train_files : list string) (e : Error) :
  extract_names train_files = inl e ->
  e = IndexError /\
  exists file, file ∈ train_files /\ findall_first (stem file) = None.
Proof.
  induction train_files as [|file rest IH]; simpl; [done|].
  destruct (findall_first (stem file)) as [name|] eqn:Hname; simpl.
  - destruct (extract_names rest) as [e'|names]; simpl; [|done].
    intros [= <-]. destruct (IH eq_refl) as (-> & f & Hin & Hf).
    split; [done|]. exists f. split; [by right | done].
  - intros [= <-]. split; [done|]. exists file. split; [by left | done].
Qed.

Lemma extract_names_unmatched (train_files : list string) (file : string) :
  file ∈ train_files -> findall_first (stem file) = None ->
  extract_names train_files = inl IndexError.
Proof.
  intros Hin Hnone. induction train_files as [|f rest IH]; simpl.
  - by apply elem_of_nil in Hin.
  - apply elem_of_cons in Hin as [<-|Hin].
    + by rewrite Hnone.
    + destruct (findall_first (stem f)); simpl; [|done].
      by rewrite (IH Hin).
Qed.

Lemma extract_names_inr (train_files names : list string) :
  extract_names train_files = inr names ->
  length names = length train_files.
Proof.
  revert names. induction train_files as [|file rest IH]; intros names; simpl.
  - by intros [= <-].
  - destruct (findall_first (stem file)); simpl; [|done].
    destruct (extract_names rest) as [|names']; simpl; [done|].
    intros [= <-]. simpl. by rewrite (IH names').
Qed.

Lemma lookup_labels_inl (data_indexed : gmap string Z) (names : list string) (e : Error) :
  lookup_labels data_indexed names = inl e -> exists name, e = KeyError name.
Proof.
  induction names as [|name rest IH]; simpl; [done|].
  destruct (data_indexed !! name); simpl.
  - destruct (lookup_labels data_indexed rest); simpl; [|done].
    intros [= <-]. by apply IH.
  - intros [= <-]. eauto.
Qed.

Lemma lookup_labels_inr (data_indexed : gmap string Z) (names : list string)
    (labels : list Z) :
  lookup_labels data_indexed names = inr labels ->
  length labels = length names.
Proof.
  revert labels. induction names as [|name rest IH]; intros labels; simpl.
  - by intros [= <-].
  - destruct (data_indexed !! name); simpl; [|done].
    destruct (lookup_labels data_indexed rest) as [|labels']; simpl; [done|].
    intros [= <-]. simpl. by rewrite (IH labels').
Qed.

Lemma first_of_each_structure_some {A} (S : nat) (xs : list A) :
  0 < S ->
  exists ys, first_of_each_structure S xs = Some ys
             /\ length ys = length xs / S
             /\ forall i, i < length xs / S -> ys !! i = xs !! (S * i).
Proof.
  intros HS. unfold first_of_each_structure, structure_range.
  destruct (mapM (fun i => xs !! (S * i)) (seq 0 (length xs / S))) as [ys|] eqn:Hys.
  - exists ys. split; [done|].
    pose proof (length_mapM _ _ _ Hys) as Hlen. rewrite length_seq in Hlen.
    split; [done|]. intros i Hi.
    apply mapM_Some in Hys.
    destruct (lookup_lt_is_Some_2 ys i) as [y Hy]; [lia|].
    destruct (Forall2_lookup_r _ _ _ _ _ Hys Hy) as (j & Hj & Hlook).
    apply lookup_seq in Hj as [-> _]. simpl in Hlook. congruence.
  - exfalso. apply mapM_None in Hys. apply Exists_exists in Hys as (i & Hin & Hnone).
    apply elem_of_seq in Hin as [_ Hi]. simpl in Hi.
    apply lookup_ge_None in Hnone. apply div_mul_le in Hi. lia.
Qed.

Lemma check_report_inputs_ok (predicted truth : list Z) :
  check_report_inputs predicted truth = inr tt <->
  length predicted = length truth /\ 0 < length predicted.
Proof.
  unfold check_report_inputs.
  destruct (Nat.eqb_spec (length predicted) (length truth));
    destruct (Nat.eqb_spec (length predicted) 0); simpl;
    (split; [done || lia | done || lia]).
Qed.

Lemma make_table_ok (keys : list string) (scores : list (Q * Q)) (truth : list Z) :
  length scores = length keys -> length truth = length keys ->
  exists rows, make_table keys scores truth = inr rows
               /\ map row_key rows = keys
               /\ map true_score rows = truth.
Proof.
  intros Hs Ht. unfold make_table.
  rewrite Hs, Ht, !Nat.eqb_refl. simpl. eexists. split; [done|].
  clear -Hs Ht. revert scores truth Hs Ht.
  induction keys as [|k keys IH]; intros [|s scores] [|t truth] Hs Ht;
    simpl in *; try done.
  destruct (IH scores truth) as [Hk Htr]; [lia | lia |].
  by rewrite Hk, Htr.
Qed.

Lemma make_table_error (keys : list string) (scores : list (Q * Q)) (truth : list Z)
    (e : Error) :
  make_table keys scores truth = inl e -> e = ValueError.
Proof. unfold make_table. destruct (_ && _); congruence. Qed.

Lemma make_table_inr (keys : list string) (scores : list (Q * Q)) (truth : list Z)
    (rows : list TableRow) :
  make_table keys scores truth = inr rows -> length scores = length keys.
Proof.
  unfold make_table.
  destruct (Nat.eqb_spec (length scores) (length keys)); [done|]. simpl. done.
Qed.

Lemma predictions_decoded_length (predictions : list Prediction) :
  length (predictions_decoded predictions) = length predictions.
Proof. unfold predictions_decoded. by rewrite length_map. Qed.

Lemma predictions_structure_avg_length (S : nat) (predictions : list Prediction) :
  length (predictions_structure_avg S predictions) = length predictions / S.
Proof.
  unfold predictions_structure_avg, structure_range.
  by rewrite length_map, length_seq.
Qed.

Lemma predictions_structure_count_length (S : nat) (predictions : list Prediction) :
  length (predictions_structure_count S predictions) = length predictions / S.
Proof.
  unfold predictions_structure_count, structure_range.
  by rewrite length_map, length_seq.
Qed.

Lemma predictions_struct_avg_flat_length (S : nat) (predictions : list Prediction) :
  length (predictions_struct_avg_flat S predictions) = length predictions / S.
Proof.
  unfold predictions_struct_avg_flat.
  by rewrite !length_map, predictions_structure_avg_length.
Qed.

Lemma predictions_struct_count_flat_length (S : nat) (predictions : list Prediction) :
  length (predictions_struct_count_flat S predictions) = length predictions / S.
Proof.
  unfold predictions_struct_count_flat.
  by rewrite !length_map, predictions_structure_count_length.
Qed.

Lemma structures_positive (L S : nat) : 0 < L -> L mod S = 0 -> 0 < S /\ 0 < L / S.
Proof.
  intros HL Hmod. destruct S as [|S]; [simpl in Hmod; lia|].
  split; [lia|]. pose proof (Nat.div_mod_eq L (Datatypes.S S)). nia.
Qed.

Section EvaluateFacts.

Context {ClassMetrics : Type} (class_metrics : list Z -> list Z -> ClassMetrics).
Context (model : Model) (train_files : list string).
Context (data_indexed : gmap string Z) (S : nat).

(** A run whose inputs pass every stage gives exactly these reports. *)
Lemma evaluate_ok (names : list string) (labels : list Z) :
  check_cardinality train_files S = inr tt ->
  extract_names train_files = inr names ->
  lookup_labels data_indexed names = inr labels ->
  length (model train_files) = length train_files ->
  exists structures info raw averaged counted,
    first_of_each_structure S names = Some structures
    /\ first_of_each_structure S labels = Some info
    /\ map true_score raw = labels
    /\ map row_key averaged = structures /\ map true_score averaged = info
    /\ map row_key counted = structures /\ map true_score counted = info
    /\ evaluate class_metrics model train_files data_indexed S =
       inr (mkResult ClassMetrics raw
              (class_metrics (predictions_decoded (model train_files)) labels)
              (confusion_cells (predictions_decoded (model train_files)) labels)
              averaged counted
              (class_metrics
                 (predictions_struct_avg_flat S (model train_files)) info)
              (confusion_cells
                 (predictions_struct_avg_flat S (model train_files)) info)
              (class_metrics
                 (predictions_struct_count_flat S (model train_files)) info)
              (confusion_cells
                 (predictions_struct_count_flat S (model train_files)) info)).
Proof.
  intros Hcheck Hnames Hlabels Hmodel.
  pose proof (extract_names_inr _ _ Hnames) as Hln.
  pose proof (lookup_labels_inr _ _ _ Hlabels) as Hll.
  apply check_cardinality_ok in Hcheck as Hcard. destruct Hcard as [HL Hmod].
  destruct (structures_positive _ _ HL Hmod) as [HS Hn].
  destruct (first_of_each_structure_some S names HS) as (structures & Hst & Hlst & _).
  destruct (first_of_each_structure_some S labels HS) as (info & Hinfo & Hlinfo & _).
  destruct (make_table_ok train_files (model train_files) labels)
    as (raw & Hraw & _ & Hraw_t); [exact Hmodel | congruence |].
  destruct (make_table_ok structures
              (predictions_structure_avg S (model train_files)) info)
    as (averaged & Havg & Havg_k & Havg_t).
  { rewrite predictions_structure_avg_length. congruence. }
  { congruence. }
  destruct (make_table_ok structures
              (predictions_structure_count S (model train_files)) info)
    as (counted & Hcnt & Hcnt_k & Hcnt_t).
  { rewrite predictions_structure_count_length. congruence. }
  { congruence. }
  exists structures, info, raw, averaged, counted.
  repeat (split; [done|]).
  assert (Himg : check_report_inputs
                   (predictions_decoded (model train_files)) labels = inr tt).
  { apply check_report_inputs_ok. rewrite predictions_decoded_length. lia. }
  assert (Ha : check_report_inputs
                 (predictions_struct_avg_flat S (model train_files)) info = inr tt).
  { apply check_report_inputs_ok. rewrite predictions_struct_avg_flat_length.
    rewrite Hlinfo, Hll, Hln, Hmodel. done. }
  assert (Hc : check_report_inputs
                 (predictions_struct_count_flat S (model train_files)) info = inr tt).
  { apply check_report_inputs_ok. rewrite predictions_struct_count_flat_length.
    rewrite Hlinfo, Hll, Hln, Hmodel. done. }
  unfold evaluate, classification_report, confusion_matrix.
  rewrite Hcheck; cbn [bind]. rewrite Hnames; cbn [bind].
  rewrite Hlabels; cbn [bind]. rewrite Hraw, Himg; cbn [bind].
  rewrite Hst, Hinfo; cbn [bind raise_if_none].
  rewrite Havg, Hcnt, Ha, Hc; cbn [bind]. done.
Qed.

(** No stage after the cardinality check raises an assertion. *)
Lemma evaluate_error_after_check (e : Error) :
  check_cardinality train_files S = inr tt ->
  evaluate class_metrics model train_files data_indexed S = inl e ->
  (e = IndexError /\
   exists file, file ∈ train_files /\ findall_first (stem file) = None)
  \/ (exists name, e = KeyError name)
  \/ (e = ValueError /\ length (model train_files) <> length train_files).
Proof.
  intros Hcheck Hev.
  destruct (extract_names train_files) as [e1|names] eqn:Hnames.
  { left. unfold evaluate in Hev. rewrite Hcheck in Hev; cbn [bind] in Hev.
    rewrite Hnames in Hev; cbn [bind] in Hev.
    injection Hev as <-. by apply extract_names_error. }
  destruct (lookup_labels data_indexed names) as [e2|labels] eqn:Hlabels.
  { right. left. unfold evaluate in Hev.
    rewrite Hcheck in Hev; cbn [bind] in Hev.
    rewrite Hnames in Hev; cbn [bind] in Hev.
    rewrite Hlabels in Hev; cbn [bind] in Hev.
    injection Hev as <-. by eapply lookup_labels_inl. }
  destruct (decide (length (model train_files) = length train_files)) as [Hm|Hm].
  { destruct (evaluate_ok names labels) as (? & ? & ? & ? & ? & H); try done.
    destruct H as (_ & _ & _ & _ & _ & _ & _ & H). congruence. }
  right. right. split; [|done].
  unfold evaluate in Hev.
  rewrite Hcheck in Hev; cbn [bind] in Hev.
  rewrite Hnames in Hev; cbn [bind] in Hev.
  rewrite Hlabels in Hev; cbn [bind] in Hev.
  destruct (make_table train_files (model train_files) labels) as [e'|raw] eqn:Hraw.
  - apply make_table_error in Hraw as ->. cbn [bind] in Hev. congruence.
  - exfalso. apply make_table_inr in Hraw. exact (Hm Hraw).
Qed.

End EvaluateFacts.

(** ** Cardinality check *)

Lemma evaluate_check_error {ClassMetrics} (class_metrics : list Z -> list Z -> ClassMetrics)
    (model : Model) (train_files : list string) (data_indexed : gmap string Z)
    (S : nat) (e : Error) :
  check_cardinality train_files S = inl e ->
  evaluate class_metrics model train_files data_indexed S = inl e.
Proof. intros Hc. unfold evaluate. by rewrite Hc. Qed.

(** The claim of C6 fails for [slices_per_structure = 0]: one file is not a
    multiple of zero slices, and the run fails on the modulo with
    [ZeroDivisionError], which is neither of the two assertions. *)
Lemma cardinality_counterexample :
  length ["test/1abc_0.png"%string] <> 0
  /\ ~ (exists k, length ["test/1abc_0.png"%string] = k * 0)
  /\ evaluate (fun _ _ => tt) (fun _ => [(1 # 4, 3 # 4)%Q])
              ["test/1abc_0.png"%string] ∅ 0 = inl ZeroDivisionError
  /\ ~ InvalidCardinality ZeroDivisionError.
Proof.
  split; [done|]. split; [intros [k Hk]; simpl in Hk; lia|].
  split; [reflexivity|]. by intros [|].
Qed.

(** C6, amended. With no input file the run fails with the first assertion;
    with at least one file and a non-zero [slices_per_structure] of which the
    number of files is not an exact multiple it fails with the second
    assertion (the two are the spec's InvalidCardinality); in both cases no
    table or report is produced.  With at least one file and
    [slices_per_structure = 0] the run fails at the same point with
    [ZeroDivisionError].  Conversely, when there is at least one file and the
    number of files is an exact multiple, the check passes and no later stage
    raises InvalidCardinality. *)
Theorem cardinality_check {ClassMetrics} (class_metrics : list Z -> list Z -> ClassMetrics)
    (model : Model) (train_files : list string) (data_indexed : gmap string Z)
    (S : nat) :
  (length train_files = 0 ->
     evaluate class_metrics model train_files data_indexed S
     = inl (AssertionError no_files_message))
  /\ (0 < length train_files -> 0 < S -> length train_files mod S <> 0 ->
        evaluate class_metrics model train_files data_indexed S
        = inl (AssertionError not_multiple_message))
  /\ (0 < length train_files -> S = 0 ->
        evaluate class_metrics model train_files data_indexed S
        = inl ZeroDivisionError)
  /\ (0 < length train_files -> length train_files mod S = 0 ->
        check_cardinality train_files S = inr tt
        /\ forall e,
             evaluate class_metrics model train_files data_indexed S = inl e ->
             ~ InvalidCardinality e).
Proof.
  split; [|split; [|split]].
  - intros H0. apply evaluate_check_error. unfold check_cardinality.
    by rewrite H0.
  - intros HL HS Hmod. apply evaluate_check_error. unfold check_cardinality.
    destruct (Nat.eqb_spec (length train_files) 0); [lia|].
    destruct (Nat.eqb_spec S 0); [lia|].
    destruct (Nat.eqb_spec (length train_files mod S) 0); [lia|]. done.
  - intros HL ->. apply evaluate_check_error. unfold check_cardinality.
    destruct (Nat.eqb_spec (length train_files) 0); [lia|]. done.
  - intros HL Hmod.
    assert (Hc : check_cardinality train_files S = inr tt)
      by (by apply check_cardinality_ok).
    split; [done|]. intros e He [Hi|Hi]; subst e;
      destruct (evaluate_error_after_check _ _ _ _ _ _ Hc He)
        as [[? _]|[[? ?]|[? _]]]; done.
Qed.

Lemma cardinality_check_witness :
  evaluate (fun _ _ => tt) (fun _ => []) [] ∅ 60
  = inl (AssertionError no_files_message)
  /\ evaluate (fun _ _ => tt) (fun _ => [(1 # 4, 3 # 4)%Q])
       ["test/1abc_0.png"%string] ∅ 60
     = inl (AssertionError not_multiple_message)
  /\ check_cardinality ["test/1abc_0.png"%string; "test/1abc_1.png"%string] 2 = inr tt.
Proof.
  split; [|split].
  - apply (cardinality_check (fun _ _ => tt) (fun _ => []) [] ∅ 60). reflexivity.
  - apply (cardinality_check (fun _ _ => tt) (fun _ => [(1 # 4, 3 # 4)%Q])
             ["test/1abc_0.png"%string] ∅ 60); simpl; lia.
  - apply (cardinality_check (fun _ _ => tt) (fun _ => [])
             ["test/1abc_0.png"%string; "test/1abc_1.png"%string] ∅ 2);
      simpl; lia.
Defined.

(** ** Structure names *)

Lemma findall_first_some (s m : list ascii) :
  findall_first s = Some m -> has_index_suffix s.
Proof.
  induction s as [|c t IH]; [done|]. rewrite findall_first_cons.
  destruct (match_at (c :: t)) as [m'|] eqn:Hm.
  - intros _. by eapply match_at_some.
  - intros Ht. destruct (IH Ht) as (pre & d & rest & -> & Hd).
    by exists (c :: pre), d, rest.
Qed.

(** C8. There is a file name whose stem has no underscore followed by a digit
    (["test/1abc.png"]): for it the pattern has no match and a run on it
    fails with [IndexError], which is not one of the diagnosed cardinality
    errors.  In general a run that has passed the cardinality check fails
    with [IndexError] exactly when some file's stem has no underscore
    followed by a digit, so it proceeds to the labels only when every stem
    matches. *)
Theorem structure_name_extraction :
  (exists file : string,
      ~ has_index_suffix (stem file)
      /\ findall_first (stem file) = None
      /\ ~ InvalidCardinality IndexError
      /\ forall ClassMetrics (class_metrics : list Z -> list Z -> ClassMetrics)
                (model : Model) (data_indexed : gmap string Z),
           evaluate class_metrics model [file] data_indexed 1 = inl IndexError)
  /\ (forall ClassMetrics (class_metrics : list Z -> list Z -> ClassMetrics)
             (model : Model) (train_files : list string)
             (data_indexed : gmap string Z) (S : nat),
         check_cardinality train_files S = inr tt ->
         (evaluate class_metrics model train_files data_indexed S = inl IndexError
          <-> exists file, file ∈ train_files /\ ~ has_index_suffix (stem file))
         /\ ((exists names, extract_names train_files = inr names)
             <-> forall file, file ∈ train_files -> has_index_suffix (stem file))).
Proof.
  split.
  - exists "test/1abc.png"%string.
    assert (Hnone : findall_first (stem "test/1abc.png") = None) by reflexivity.
    split; [by apply findall_first_none|]. split; [done|].
    split; [by intros [|]|]. intros CM cm model db.
    assert (Hin : "test/1abc.png"%string ∈ ["test/1abc.png"%string]) by (by left).
    assert (Hc : check_cardinality ["test/1abc.png"%string] 1 = inr tt)
      by reflexivity.
    unfold evaluate. rewrite Hc; cbn [bind].
    by rewrite (extract_names_unmatched _ _ Hin Hnone).
  - intros CM cm model files db S Hc. split.
    + split.
      * intros He.
        destruct (evaluate_error_after_check _ _ _ _ _ _ Hc He)
          as [(_ & file & Hin & Hnone)|[[? ?]|[? _]]]; [|done|done].
        exists file. split; [done|]. by apply findall_first_none.
      * intros (file & Hin & Hno). apply findall_first_none in Hno.
        unfold evaluate. rewrite Hc; cbn [bind].
        by rewrite (extract_names_unmatched _ _ Hin Hno).
    + split.
      * intros [names Hnames] file Hin.
        destruct (findall_first (stem file)) as [m|] eqn:Hm.
        -- by eapply findall_first_some.
        -- rewrite (extract_names_unmatched _ _ Hin Hm) in Hnames. done.
      * intros Hall. destruct (extract_names files) as [e|names] eqn:Hn.
        -- apply extract_names_error in Hn as (_ & file & Hin & Hnone).
           apply findall_first_none in Hnone. destruct Hnone. by apply Hall.
        -- by exists names.
Qed.

(** ** Confusion matrix *)

Lemma sum_list_map_add {A} (f g : A -> nat) (l : list A) :
  sum_list (map (fun x => f x + g x) l) = sum_list (map f l) + sum_list (map g l).
Proof. induction l as [|x l IH]; simpl; lia. Qed.

Lemma sum_list_map_zero {A} (f : A -> nat) (l : list A) :
  (forall x, f x = 0) -> sum_list (map f l) = 0.
Proof. intros Hf. induction l as [|x l IH]; simpl; [done|]. rewrite Hf. lia. Qed.

Lemma indicator_sum_absent (x : Z) (l : list Z) :
  x ∉ l -> sum_list (map (indicator x) l) = 0.
Proof.
  induction l as [|y l IH]; intros Hx; simpl; [done|].
  apply not_elem_of_cons in Hx as [Hne Hx]. unfold indicator at 1.
  rewrite decide_False by done. by rewrite IH.
Qed.

Lemma indicator_sum_present (x : Z) (l : list Z) :
  NoDup l -> x ∈ l -> sum_list (map (indicator x) l) = 1.
Proof.
  induction 1 as [|y l Hy Hnd IH]; intros Hx; simpl.
  - by apply elem_of_nil in Hx.
  - unfold indicator at 1. destruct (decide (x = y)) as [->|Hne].
    + by rewrite indicator_sum_absent.
    + apply elem_of_cons in Hx as [?|Hx]; [done|]. by rewrite IH.
Qed.

Lemma pair_indicator (z : Z * Z) (a b : Z) :
  indicator z (a, b) = indicator (fst z) a * indicator (snd z) b.
Proof.
  destruct z as [x y]. unfold indicator. simpl.
  repeat case_decide; simplify_eq; done.
Qed.

Lemma sum_list_map_scale {A} (c : nat) (f : A -> nat) (l : list A) :
  sum_list (map (fun x => c * f x) l) = c * sum_list (map f l).
Proof. induction l as [|x l IH]; simpl; lia. Qed.

Lemma cells_sum (labels : list Z) (samples : list (Z * Z)) :
  NoDup labels ->
  (forall z, z ∈ samples -> fst z ∈ labels /\ snd z ∈ labels) ->
  sum_list (map (fun a =>
     sum_list (map (fun b =>
        length (filter (fun sample => sample = (a, b)) samples)) labels)) labels)
  = length samples.
Proof.
  intros Hnd. induction samples as [|z samples IH]; intros Hin.
  - simpl. apply sum_list_map_zero. intros a. by apply sum_list_map_zero.
  - destruct (Hin z) as [Hz1 Hz2]; [by left|].
    rewrite (map_ext _ (fun a =>
       indicator (fst z) a * sum_list (map (indicator (snd z)) labels)
       + sum_list (map (fun b =>
           length (filter (fun sample => sample = (a, b)) samples)) labels))).
    + rewrite sum_list_map_add, IH by (intros; apply Hin; by right).
      rewrite (indicator_sum_present (snd z)) by done.
      rewrite (map_ext _ (indicator (fst z))) by (intros; lia).
      rewrite indicator_sum_present by done. simpl. lia.
    + intros a. rewrite <- sum_list_map_scale, <- sum_list_map_add.
      f_equal. apply map_ext. intros b.
      rewrite filter_cons, <- pair_indicator. unfold indicator.
      destruct (decide (z = (a, b))); simpl; done.
Qed.

Lemma unique_labels_spec (predicted truth : list Z) :
  NoDup (unique_labels predicted truth)
  /\ forall x, x ∈ unique_labels predicted truth <-> x ∈ predicted \/ x ∈ truth.
Proof.
  unfold unique_labels. split.
  - rewrite merge_sort_Permutation. apply NoDup_remove_dups.
  - intros x. rewrite merge_sort_Permutation, elem_of_remove_dups.
    apply elem_of_app.
Qed.

Lemma confusion_cells_sum (predicted truth : list Z) :
  matrix_sum (confusion_cells predicted truth) = length (zip predicted truth).
Proof.
  destruct (unique_labels_spec predicted truth) as [Hnd Hin].
  unfold matrix_sum, confusion_cells, cell. rewrite map_map.
  apply cells_sum; [done|]. intros [x y] Hz. simpl.
  rewrite !Hin. split.
  - left. by eapply elem_of_zip_l.
  - right. by eapply elem_of_zip_r.
Qed.

(** C7. For two label sequences of equal, non-zero length the confusion
    matrix is produced and all its cells sum to that length. *)
Theorem confusion_matrix_sum (predicted truth : list Z) :
  length predicted = length truth ->
  predicted <> [] ->
  exists m, confusion_matrix predicted truth = inr m
            /\ matrix_sum m = length predicted
            /\ matrix_sum m = length truth.
Proof.
  intros Hlen Hne. exists (confusion_cells predicted truth).
  assert (Hc : check_report_inputs predicted truth = inr tt).
  { apply check_report_inputs_ok. split; [done|].
    destruct predicted; [done | simpl; lia]. }
  unfold confusion_matrix. rewrite Hc. cbn [bind]. split; [done|].
  rewrite confusion_cells_sum, length_zip. lia.
Qed.

Lemma confusion_matrix_sum_witness :
  exists m, confusion_matrix [1; 0; 1]%Z [1; 1; 0]%Z = inr m /\ matrix_sum m = 3.
Proof.
  destruct (confusion_matrix_sum [1; 0; 1]%Z [1; 1; 0]%Z) as (m & Hm & Hsum & _).
  - reflexivity.
  - discriminate.
  - exists m. split; [exact Hm | exact Hsum].
Defined.

(** ** Structure-level reports *)

(** C9. No stage of a run looks at the labels inside a batch: for every file
    listing that passes the cardinality check, whatever the labels of its
    files, the label of structure i is the label at index
    [slices_per_structure * i], the run succeeds, and both structure-level
    reports (and the true-score columns of both structure tables) are built
    from those first-of-batch labels alone. *)
Theorem structure_labels_first_of_batch {ClassMetrics}
    (class_metrics : list Z -> list Z -> ClassMetrics)
    (model : Model) (train_files : list string) (data_indexed : gmap string Z)
    (S : nat) (names : list string) (labels : list Z) :
  check_cardinality train_files S = inr tt ->
  extract_names train_files = inr names ->
  lookup_labels data_indexed names = inr labels ->
  length (model train_files) = length train_files ->
  exists info r,
    first_of_each_structure S labels = Some info
    /\ length info = length labels / S
    /\ (forall i, i < length labels / S -> info !! i = labels !! (S * i))
    /\ evaluate class_metrics model train_files data_indexed S = inr r
    /\ average_class r
       = class_metrics (predictions_struct_avg_flat S (model train_files)) info
    /\ average_conf r
       = confusion_cells (predictions_struct_avg_flat S (model train_files)) info
    /\ count_class r
       = class_metrics (predictions_struct_count_flat S (model train_files)) info
    /\ count_conf r
       = confusion_cells (predictions_struct_count_flat S (model train_files)) info
    /\ map true_score (averaged_predictions r) = info
    /\ map true_score (counted_predictions r) = info.
Proof.
  intros Hcheck Hnames Hlabels Hmodel.
  destruct (evaluate_ok class_metrics model train_files data_indexed S names labels)
    as (structures & info & raw & averaged & counted
        & _ & Hinfo & _ & _ & Havg & _ & Hcnt & Hev); try done.
  apply check_cardinality_ok in Hcheck as [HL Hmod].
  destruct (structures_positive _ _ HL Hmod) as [HS _].
  destruct (first_of_each_structure_some S labels HS) as (info' & Hinfo' & Hlen & Hidx).
  assert (info' = info) as -> by congruence.
  exists info. eexists. split; [done|]. split; [done|]. split; [done|].
  split; [exact Hev|]. simpl. done.
Qed.

(** A run on one structure of two slices whose labels differ. *)
Lemma structure_labels_first_of_batch_witness :
  exists r,
    lookup_labels (<["1abc" := 1%Z]> (<["2xyz" := 0%Z]> ∅)) ["1abc"; "2xyz"]%string
    = inr [1; 0]%Z
    /\ evaluate (fun _ _ => tt) (fun _ => [(1 # 4, 3 # 4); (3 # 5, 2 # 5)]%Q)
         ["test/1abc_0.png"; "test/2xyz_1.png"]%string
         (<["1abc" := 1%Z]> (<["2xyz" := 0%Z]> ∅)) 2 = inr r
    /\ map true_score (averaged_predictions r) = [1%Z].
Proof.
  destruct (structure_labels_first_of_batch (fun _ _ => tt)
              (fun _ => [(1 # 4, 3 # 4); (3 # 5, 2 # 5)]%Q)
              ["test/1abc_0.png"; "test/2xyz_1.png"]%string
              (<["1abc" := 1%Z]> (<["2xyz" := 0%Z]> ∅)) 2
              ["1abc"; "2xyz"]%string [1; 0]%Z)
    as (info & r & Hinfo & _ & _ & Hev & _ & _ & _ & _ & Htrue & _).
  - reflexivity.
  - reflexivity.
  - reflexivity.
  - reflexivity.
  - exists r. split; [reflexivity|]. split; [exact Hev|].
    rewrite Htrue. injection Hinfo as <-. reflexivity.
Defined.

(** C10. When the number L of predictions (one per file) is positive and an
    exact multiple of [slices_per_structure], the per-slice report receives
    two sequences of length L and both per-structure reports two sequences of
    length L / slices_per_structure > 0, so the input validation of every
    report passes and the run does not fail on a length mismatch. *)
Theorem report_inputs_lengths {ClassMetrics}
    (class_metrics : list Z -> list Z -> ClassMetrics)
    (model : Model) (train_files : list string) (data_indexed : gmap string Z)
    (S : nat) (names : list string) (labels : list Z) :
  0 < length (model train_files) ->
  length (model train_files) mod S = 0 ->
  length train_files = length (model train_files) ->
  extract_names train_files = inr names ->
  lookup_labels data_indexed names = inr labels ->
  exists info,
    first_of_each_structure S labels = Some info
    /\ length (predictions_decoded (model train_files)) = length (model train_files)
    /\ length labels = length (model train_files)
    /\ length (predictions_struct_avg_flat S (model train_files))
       = length (model train_files) / S
    /\ length (predictions_struct_count_flat S (model train_files))
       = length (model train_files) / S
    /\ length info = length (model train_files) / S
    /\ 0 < length (model train_files) / S
    /\ check_report_inputs (predictions_decoded (model train_files)) labels = inr tt
    /\ check_report_inputs (predictions_struct_avg_flat S (model train_files)) info
       = inr tt
    /\ check_report_inputs (predictions_struct_count_flat S (model train_files)) info
       = inr tt
    /\ exists r, evaluate class_metrics model train_files data_indexed S = inr r.
Proof.
  intros HL Hmod Hfiles Hnames Hlabels.
  assert (Hcheck : check_cardinality train_files S = inr tt).
  { apply check_cardinality_ok. rewrite Hfiles. done. }
  destruct (evaluate_ok class_metrics model train_files data_indexed S names labels)
    as (structures & info & raw & averaged & counted
        & _ & Hinfo & _ & _ & _ & _ & _ & Hev); try done.
  destruct (structures_positive _ _ HL Hmod) as [HS Hn].
  destruct (first_of_each_structure_some S labels HS) as (info' & Hinfo' & Hlen & _).
  assert (info' = info) as -> by congruence.
  pose proof (extract_names_inr _ _ Hnames) as Hln.
  pose proof (lookup_labels_inr _ _ _ Hlabels) as Hll.
  assert (Hlabels_len : length labels = length (model train_files)) by congruence.
  rewrite Hlabels_len in Hlen.
  exists info. split; [done|].
  split; [apply predictions_decoded_length|]. split; [done|].
  split; [apply predictions_struct_avg_flat_length|].
  split; [apply predictions_struct_count_flat_length|].
  split; [done|]. split; [done|].
  split.
  { apply check_report_inputs_ok. rewrite predictions_decoded_length.
    split; [congruence | done]. }
  split.
  { apply check_report_inputs_ok. rewrite predictions_struct_avg_flat_length.
    split; [congruence | done]. }
  split.
  { apply check_report_inputs_ok. rewrite predictions_struct_count_flat_length.
    split; [congruence | done]. }
  by eexists.
Qed.

Lemma report_inputs_lengths_witness :
  exists r,
    evaluate (fun _ _ => tt) (fun _ => [(1 # 4, 3 # 4); (3 # 5, 2 # 5)]%Q)
      ["test/1abc_0.png"; "test/1abc_1.png"]%string (<["1abc" := 1%Z]> ∅) 2
    = inr r.
Proof.
  destruct (report_inputs_lengths (fun _ _ => tt)
              (fun _ => [(1 # 4, 3 # 4); (3 # 5, 2 # 5)]%Q)
              ["test/1abc_0.png"; "test/1abc_1.png"]%string
              (<["1abc" := 1%Z]> ∅) 2 ["1abc"; "1abc"]%string [1; 1]%Z)
    as (info & _ & _ & _ & _ & _ & _ & _ & _ & _ & _ & r & Hev).
  - simpl. lia.
  - reflexivity.
  - reflexivity.
  - reflexivity.
  - reflexivity.
  - exists r. exact Hev.
Defined.

(** * Further properties of evaluate *)

(** ** Per-image counts *)

Lemma positive_votes_count (batch : list Prediction) :
  sum_Z (map snd (predictions_by_result batch)) = Z.of_nat (length (predictions_1 batch)).
Proof.
  unfold predictions_1. induction batch as [|p batch IH]; [done|].
  rewrite filter_cons. simpl map. simpl sum_Z. rewrite IH.
  destruct (decide (gtb (positive p) (negative p) = true)) as [Hp|Hp].
  - rewrite Hp. simpl. lia.
  - apply not_true_is_false in Hp. rewrite Hp. simpl. lia.
Qed.

Lemma negative_votes_count (batch : list Prediction) :
  sum_Z (map fst (predictions_by_result batch)) = Z.of_nat (length (predictions_0 batch)).
Proof.
  unfold predictions_0. induction batch as [|p batch IH]; [done|].
  rewrite filter_cons. simpl map. simpl sum_Z. rewrite IH.
  destruct (decide (gtb (negative p) (positive p) = true)) as [Hp|Hp].
  - rewrite Hp. simpl. lia.
  - apply not_true_is_false in Hp. rewrite Hp. simpl. lia.
Qed.

Lemma votes_total (predictions : list Prediction) :
  length (predictions_1 predictions) + length (predictions_0 predictions)
  <= length predictions
  /\ (length (predictions_1 predictions) + length (predictions_0 predictions)
      = length predictions
      <-> Forall (fun p => ~ (positive p == negative p)%Q) predictions).
Proof.
  unfold predictions_1, predictions_0.
  induction predictions as [|p l [IHle IHeq]]; [by split; [|split; [constructor|]]|].
  rewrite !filter_cons, Forall_cons.
  destruct (decide (gtb (positive p) (negative p) = true)) as [Hp|Hp];
    destruct (decide (gtb (negative p) (positive p) = true)) as [Hn|Hn]; simpl.
  - apply gtb_lt in Hp, Hn. lra.
  - apply gtb_lt in Hp. split; [lia|]. rewrite <- IHeq.
    split; [intros; split; [lra | lia]|]. intros [_ ?]. lia.
  - apply gtb_lt in Hn. split; [lia|]. rewrite <- IHeq.
    split; [intros; split; [lra | lia]|]. intros [_ ?]. lia.
  - apply not_true_is_false in Hp, Hn. apply gtb_le in Hp, Hn.
    split; [lia|]. split; [lia|]. intros [Hne _]. exfalso. apply Hne. lra.
Qed.

(** X1. The number of predictions logged as good is the number of slices
    decided 1, and the good and bad counts together never exceed the number
    of predictions; they add up to it exactly when no prediction has equal
    channels. *)
Theorem logged_counts (predictions : list Prediction) :
  Z.of_nat (length (predictions_1 predictions)) = sum_Z (predictions_decoded predictions)
  /\ length (predictions_1 predictions) + length (predictions_0 predictions)
     <= length predictions
  /\ (length (predictions_1 predictions) + length (predictions_0 predictions)
      = length predictions
      <-> Forall (fun p => ~ (positive p == negative p)%Q) predictions).
Proof.
  split; [|apply votes_total].
  rewrite <- positive_votes_count. unfold predictions_by_result, predictions_decoded.
  by rewrite map_map.
Qed.

(** ** Names and labels *)

Lemma extract_names_spec (train_files names : list string) :
  extract_names train_files = inr names <->
  Forall2 (fun file name =>
             exists m, findall_first (stem file) = Some m
                       /\ name = string_of_list_ascii m) train_files names.
Proof.
  revert names. induction train_files as [|file rest IH]; intros names; simpl.
  - split.
    + intros [= <-]. constructor.
    + intros H. by inversion H.
  - destruct (findall_first (stem file)) as [m|] eqn:Hm; simpl.
    + destruct (extract_names rest) as [e|names'] eqn:Hrest; simpl.
      * split; [done|]. intros H. inversion H as [|? name ? names'' _ Hrest']; subst.
        apply IH in Hrest'. done.
      * split.
        -- intros [= <-]. constructor; [by exists m | by apply IH].
        -- intros H. inversion H as [|? name ? names'' (m' & Hm' & ->) Hrest']; subst.
           apply IH in Hrest'. by simplify_eq.
    + split; [done|]. intros H.
      inversion H as [|? name ? names'' (m' & Hm' & _) _]; subst. congruence.
Qed.

Lemma lookup_labels_spec (data_indexed : gmap string Z) (names : list string)
    (labels : list Z) :
  lookup_labels data_indexed names = inr labels <->
  Forall2 (fun name label => data_indexed !! name = Some label) names labels.
Proof.
  revert labels. induction names as [|name rest IH]; intros labels; simpl.
  - split.
    + intros [= <-]. constructor.
    + intros H. by inversion H.
  - destruct (data_indexed !! name) as [label|] eqn:Hl; simpl.
    + destruct (lookup_labels data_indexed rest) as [e|labels'] eqn:Hrest; simpl.
      * split; [done|]. intros H. inversion H as [|? l ? ls _ Hrest']; subst.
        apply IH in Hrest'. done.
      * split.
        -- intros [= <-]. constructor; [done | by apply IH].
        -- intros H. inversion H as [|? l ? ls Hl' Hrest']; subst.
           apply IH in Hrest'. by simplify_eq.
    + split; [done|]. intros H. inversion H; subst. congruence.
Qed.

Lemma lookup_labels_missing (data_indexed : gmap string Z) (names : list string)
    (i : nat) (name : string) :
  names !! i = Some name ->
  data_indexed !! name = None ->
  (forall j n, j < i -> names !! j = Some n -> is_Some (data_indexed !! n)) ->
  lookup_labels data_indexed names = inl (KeyError name).
Proof.
  revert i. induction names as [|n rest IH]; intros i Hi Hnone Hbefore; [done|].
  destruct i as [|i]; simpl in Hi.
  - injection Hi as ->. simpl. by rewrite Hnone.
  - simpl. destruct (Hbefore 0 n) as [l Hl]; [lia | done |]. rewrite Hl. simpl.
    rewrite (IH i); [done | done | done |].
    intros j m Hj Hm. apply (Hbefore (Datatypes.S j) m); [lia | done].
Qed.

(** X2. A label depends on the structure name of its file alone: label i is
    the table's entry for name i, so two files with the same structure name
    get the same label. *)
Theorem labels_by_structure_name (data_indexed : gmap string Z)
    (names : list string) (labels : list Z) :
  lookup_labels data_indexed names = inr labels ->
  length labels = length names
  /\ (forall i name, names !! i = Some name ->
        labels !! i = data_indexed !! name /\ is_Some (labels !! i))
  /\ (forall i j name, names !! i = Some name -> names !! j = Some name ->
        labels !! i = labels !! j).
Proof.
  intros Hl. pose proof (lookup_labels_inr _ _ _ Hl) as Hlen.
  apply lookup_labels_spec in Hl.
  assert (Hpoint : forall i name, names !! i = Some name ->
            labels !! i = data_indexed !! name /\ is_Some (labels !! i)).
  { intros i name Hi.
    destruct (Forall2_lookup_l _ _ _ _ _ Hl Hi) as (label & Hlab & Hdb).
    rewrite Hlab, Hdb. eauto. }
  split; [done|]. split; [done|].
  intros i j name Hi Hj.
  destruct (Hpoint i name Hi) as [-> _]. destruct (Hpoint j name Hj) as [-> _]. done.
Qed.

Lemma labels_by_structure_name_witness :
  [1; 0; 1]%Z !! 0 = [1; 0; 1]%Z !! 2.
Proof.
  destruct (labels_by_structure_name (<["1abc" := 1%Z]> (<["2xyz" := 0%Z]> ∅))
              ["1abc"; "2xyz"; "1abc"]%string [1; 0; 1]%Z) as (_ & _ & Hsame).
  - reflexivity.
  - apply (Hsame 0 2 "1abc"%string); reflexivity.
Defined.

(** ** Outcome of a run *)

Lemma make_table_lookup (keys : list string) (scores : list (Q * Q)) (truth : list Z)
    (rows : list TableRow) (i : nat) (k : string) (s : Q * Q) (t : Z) :
  make_table keys scores truth = inr rows ->
  keys !! i = Some k -> scores !! i = Some s -> truth !! i = Some t ->
  rows !! i = Some (mkRow k (fst s) (snd s) t).
Proof.
  unfold make_table. destruct (_ && _); [|done]. intros [= <-] Hk Hs Ht.
  rewrite lookup_zip_with, Hk. simpl.
  assert (Hz : zip scores truth !! i = Some (s, t)) by (by apply lookup_zip_Some).
  rewrite Hz. done.
Qed.

Lemma make_table_length (keys : list string) (scores : list (Q * Q)) (truth : list Z)
    (rows : list TableRow) :
  make_table keys scores truth = inr rows -> length rows = length keys.
Proof.
  unfold make_table.
  destruct (Nat.eqb_spec (length scores) (length keys)) as [Hs|]; [|done].
  destruct (Nat.eqb_spec (length truth) (length keys)) as [Ht|]; [|done].
  intros [= <-]. rewrite length_zip_with, length_zip. lia.
Qed.

Section EvaluateOutcome.

Context {ClassMetrics : Type} (class_metrics : list Z -> list Z -> ClassMetrics).
Context (model : Model) (train_files : list string).
Context (data_indexed : gmap string Z) (S : nat).

Lemma evaluate_inr_stages (r : EvaluationResult ClassMetrics) :
  evaluate class_metrics model train_files data_indexed S = inr r ->
  exists names labels structures info,
    check_cardinality train_files S = inr tt
    /\ extract_names train_files = inr names
    /\ lookup_labels data_indexed names = inr labels
    /\ length (model train_files) = length train_files
    /\ first_of_each_structure S names = Some structures
    /\ first_of_each_structure S labels = Some info
    /\ make_table train_files (model train_files) labels = inr (raw_predictions r)
    /\ make_table structures (predictions_structure_avg S (model train_files)) info
       = inr (averaged_predictions r)
    /\ make_table structures (predictions_structure_count S (model train_files)) info
       = inr (counted_predictions r)
    /\ per_image_conf r
       = confusion_cells (predictions_decoded (model train_files)) labels
    /\ average_conf r
       = confusion_cells (predictions_struct_avg_flat S (model train_files)) info
    /\ count_conf r
       = confusion_cells (predictions_struct_count_flat S (model train_files)) info.
Proof.
  unfold evaluate, classification_report, confusion_matrix. intros Hev.
  destruct (check_cardinality train_files S) as [?|[]] eqn:Hc; [done|].
  cbn [bind] in Hev.
  destruct (extract_names train_files) as [?|names] eqn:Hn; [done|].
  cbn [bind] in Hev.
  destruct (lookup_labels data_indexed names) as [?|labels] eqn:Hl; [done|].
  cbn [bind] in Hev.
  destruct (make_table train_files (model train_files) labels)
    as [?|raw] eqn:Hraw; [done|].
  cbn [bind] in Hev.
  destruct (check_report_inputs (predictions_decoded (model train_files)) labels)
    as [?|[]] eqn:Hi; [done|].
  cbn [bind] in Hev.
  destruct (first_of_each_structure S names) as [structures|] eqn:Hst; [|done].
  destruct (first_of_each_structure S labels) as [info|] eqn:Hinfo; [|done].
  cbn [bind raise_if_none] in Hev.
  destruct (make_table structures (predictions_structure_avg S (model train_files)) info)
    as [?|averaged] eqn:Havg; [done|].
  cbn [bind] in Hev.
  destruct (make_table structures (predictions_structure_count S (model train_files)) info)
    as [?|counted] eqn:Hcnt; [done|].
  cbn [bind] in Hev.
  destruct (check_report_inputs
              (predictions_struct_avg_flat S (model train_files)) info)
    as [?|[]] eqn:Ha; [done|].
  cbn [bind] in Hev.
  destruct (check_report_inputs
              (predictions_struct_count_flat S (model train_files)) info)
    as [?|[]] eqn:Hcf; [done|].
  cbn [bind] in Hev. injection Hev as <-.
  exists names, labels, structures, info. simpl.
  pose proof (make_table_inr _ _ _ _ Hraw) as Hm.
  repeat (split; [done|]). done.
Qed.

(** X3. A run returns its tables and reports only if there is at least one
    file, [slices_per_structure] (a natural number here) is positive and
    divides the number of files, every file's stem has a structure name, every
    structure name is in the label table with the label the raw table shows,
    and the model has given one prediction per file. *)
Theorem evaluate_returns_only_if (r : EvaluationResult ClassMetrics) :
  evaluate class_metrics model train_files data_indexed S = inr r ->
  0 < length train_files
  /\ 0 < S
  /\ length train_files mod S = 0
  /\ (exists names labels,
        Forall2 (fun file name =>
                   exists m, findall_first (stem file) = Some m
                             /\ name = string_of_list_ascii m) train_files names
        /\ Forall2 (fun name label => data_indexed !! name = Some label) names labels
        /\ map true_score (raw_predictions r) = labels)
  /\ length (model train_files) = length train_files.
Proof.
  intros Hev.
  destruct (evaluate_inr_stages r Hev)
    as (names & labels & _ & _ & Hc & Hn & Hl & Hm & _ & _ & Hraw & _).
  apply check_cardinality_ok in Hc as [HL Hmod].
  destruct (structures_positive _ _ HL Hmod) as [HS _].
  split; [done|]. split; [done|]. split; [done|]. split; [|done].
  exists names, labels. split; [by apply extract_names_spec|].
  split; [by apply lookup_labels_spec|].
  destruct (make_table_ok train_files (model train_files) labels)
    as (raw & Hraw' & _ & Htrue).
  - exact Hm.
  - rewrite (lookup_labels_inr _ _ _ Hl). by apply extract_names_inr.
  - congruence.
Qed.

(** X4. When the files pass the cardinality check and every stem has a
    structure name, a structure name that the label table does not hold makes
    the run fail with [KeyError] for the first such name in file order. *)
Theorem evaluate_missing_label (names : list string) (i : nat) (name : string) :
  check_cardinality train_files S = inr tt ->
  extract_names train_files = inr names ->
  names !! i = Some name ->
  data_indexed !! name = None ->
  (forall j n, j < i -> names !! j = Some n -> is_Some (data_indexed !! n)) ->
  evaluate class_metrics model train_files data_indexed S = inl (KeyError name).
Proof.
  intros Hc Hn Hi Hnone Hbefore. unfold evaluate.
  rewrite Hc; cbn [bind]. rewrite Hn; cbn [bind].
  by rewrite (lookup_labels_missing _ _ _ _ Hi Hnone Hbefore).
Qed.

(** X5. In a run that returns, the raw table has one row per file, in file
    order: the file, the two channels of its prediction and its label. *)
Theorem raw_table_rows (r : EvaluationResult ClassMetrics) :
  evaluate class_metrics model train_files data_indexed S = inr r ->
  length (raw_predictions r) = length train_files
  /\ forall i file, train_files !! i = Some file ->
       exists pred m label,
         model train_files !! i = Some pred
         /\ findall_first (stem file) = Some m
         /\ data_indexed !! string_of_list_ascii m = Some label
         /\ raw_predictions r !! i
            = Some (mkRow file (negative pred) (positive pred) label).
Proof.
  intros Hev.
  destruct (evaluate_inr_stages r Hev)
    as (names & labels & _ & _ & _ & Hn & Hl & Hm & _ & _ & Hraw & _).
  split; [by eapply make_table_length|]. intros i file Hi.
  apply extract_names_spec in Hn. apply lookup_labels_spec in Hl.
  destruct (Forall2_lookup_l _ _ _ _ _ Hn Hi) as (name & Hname & m & Hmat & ->).
  destruct (Forall2_lookup_l _ _ _ _ _ Hl Hname) as (label & Hlabel & Hdb).
  destruct (lookup_lt_is_Some_2 (model train_files) i) as [pred Hpred].
  { rewrite Hm. by eapply lookup_lt_Some. }
  exists pred, m, label. repeat (split; [done|]).
  by apply (make_table_lookup _ _ _ _ _ _ _ _ Hraw).
Qed.

(** X6. In a run that returns, both structure tables have one row per
    structure, in order: row i is keyed by the structure name of file
    [S * i], carries the label of that file, and holds the two channel means
    (averaged table), respectively the two count fractions (counted table),
    of batch i. *)
Theorem structure_table_rows (r : EvaluationResult ClassMetrics) :
  evaluate class_metrics model train_files data_indexed S = inr r ->
  length (averaged_predictions r) = length train_files / S
  /\ length (counted_predictions r) = length train_files / S
  /\ forall i batch, batches S (model train_files) !! i = Some batch ->
       exists file m label,
         train_files !! (S * i) = Some file
         /\ findall_first (stem file) = Some m
         /\ data_indexed !! string_of_list_ascii m = Some label
         /\ averaged_predictions r !! i
            = Some (mkRow (string_of_list_ascii m)
                          (mean_negative batch) (mean_positive batch) label)
         /\ counted_predictions r !! i
            = Some (mkRow (string_of_list_ascii m)
                          (count_fraction_negative S batch) (count_fraction S batch)
                          label).
Proof.
  intros Hev.
  destruct (evaluate_inr_stages r Hev)
    as (names & labels & structures & info & Hc & Hn & Hl & Hm & Hst & Hinfo
        & _ & Havg & Hcnt & _).
  apply check_cardinality_ok in Hc as [HL Hmod].
  destruct (structures_positive _ _ HL Hmod) as [HS _].
  pose proof (extract_names_inr _ _ Hn) as Hln.
  pose proof (lookup_labels_inr _ _ _ Hl) as Hll.
  destruct (first_of_each_structure_some S names HS) as (st' & Hst' & Hlst & Hsti).
  assert (st' = structures) as -> by congruence.
  destruct (first_of_each_structure_some S labels HS) as (info' & Hinfo' & Hlinfo & Hinfoi).
  assert (info' = info) as -> by congruence.
  split; [rewrite (make_table_length _ _ _ _ Havg); congruence|].
  split; [rewrite (make_table_length _ _ _ _ Hcnt); congruence|].
  intros i batch Hb.
  assert (Hi : i < length train_files / S).
  { rewrite <- Hm, <- (batches_length S). by eapply lookup_lt_Some. }
  pose proof (div_mul_le _ _ _ Hi) as Hbound.
  destruct (lookup_lt_is_Some_2 train_files (S * i)) as [file Hfile]; [lia|].
  apply extract_names_spec in Hn. apply lookup_labels_spec in Hl.
  destruct (Forall2_lookup_l _ _ _ _ _ Hn Hfile) as (name & Hname & m & Hmat & ->).
  destruct (Forall2_lookup_l _ _ _ _ _ Hl Hname) as (label & Hlabel & Hdb).
  exists file, m, label. repeat (split; [done|]).
  assert (Hkey : structures !! i = Some (string_of_list_ascii m)).
  { rewrite Hsti by congruence. done. }
  assert (Htrue : info !! i = Some label).
  { rewrite Hinfoi by congruence. done. }
  split.
  - eapply (make_table_lookup _ _ _ _ _ _ (mean_negative batch, mean_positive batch));
      [exact Havg | done | | done].
    rewrite predictions_structure_avg_batches, list_lookup_fmap, Hb. done.
  - eapply (make_table_lookup _ _ _ _ _ _
              (count_fraction_negative S batch, count_fraction S batch));
      [exact Hcnt | done | | done].
    rewrite predictions_structure_count_batches, list_lookup_fmap, Hb. done.
Qed.

(** X7. In a run that returns, the cells of the per-image confusion matrix
    sum to the number of files and the cells of each per-structure confusion
    matrix sum to the number of structures. *)
Theorem evaluate_matrix_sums (r : EvaluationResult ClassMetrics) :
  evaluate class_metrics model train_files data_indexed S = inr r ->
  matrix_sum (per_image_conf r) = length train_files
  /\ matrix_sum (average_conf r) = length train_files / S
  /\ matrix_sum (count_conf r) = length train_files / S.
Proof.
  intros Hev.
  destruct (evaluate_inr_stages r Hev)
    as (names & labels & structures & info & Hc & Hn & Hl & Hm & _ & Hinfo
        & _ & _ & _ & -> & -> & ->).
  apply check_cardinality_ok in Hc as [HL Hmod].
  destruct (structures_positive _ _ HL Hmod) as [HS _].
  pose proof (extract_names_inr _ _ Hn) as Hln.
  pose proof (lookup_labels_inr _ _ _ Hl) as Hll.
  destruct (first_of_each_structure_some S labels HS) as (info' & Hinfo' & Hlinfo & _).
  assert (info' = info) as -> by congruence.
  rewrite !confusion_cells_sum, !length_zip.
  rewrite predictions_decoded_length, predictions_struct_avg_flat_length,
    predictions_struct_count_flat_length, Hlinfo, Hll, Hln, Hm.
  lia.
Qed.

End EvaluateOutcome.

Lemma evaluate_returns_only_if_witness :
  exists r,
    evaluate (fun _ _ => tt) (fun _ => [(1 # 4, 3 # 4); (3 # 5, 2 # 5)]%Q)
      ["test/1abc_0.png"; "test/1abc_1.png"]%string (<["1abc" := 1%Z]> ∅) 2
    = inr r
    /\ length ((fun _ : list string => [(1 # 4, 3 # 4); (3 # 5, 2 # 5)]%Q)
                 ["test/1abc_0.png"; "test/1abc_1.png"]%string) = 2.
Proof.
  eexists. split; [reflexivity|].
  edestruct (evaluate_returns_only_if (fun _ _ => tt)
               (fun _ => [(1 # 4, 3 # 4); (3 # 5, 2 # 5)]%Q)
               ["test/1abc_0.png"; "test/1abc_1.png"]%string (<["1abc" := 1%Z]> ∅) 2)
    as (_ & _ & _ & _ & Hm); [reflexivity|].
  exact Hm.
Defined.

Lemma evaluate_missing_label_witness :
  evaluate (fun _ _ => tt) (fun _ => [(1 # 4, 3 # 4); (3 # 5, 2 # 5)]%Q)
    ["test/1abc_0.png"; "test/2xyz_1.png"]%string (<["1abc" := 1%Z]> ∅) 2
  = inl (KeyError "2xyz").
Proof.
  apply (evaluate_missing_label (fun _ _ => tt)
           (fun _ => [(1 # 4, 3 # 4); (3 # 5, 2 # 5)]%Q)
           ["test/1abc_0.png"; "test/2xyz_1.png"]%string (<["1abc" := 1%Z]> ∅) 2
           ["1abc"; "2xyz"]%string 1 "2xyz"%string).
  - reflexivity.
  - reflexivity.
  - reflexivity.
  - reflexivity.
  - intros j n Hj Hn. destruct j as [|j]; [|lia].
    injection Hn as <-. exists 1%Z. reflexivity.
Defined.

Lemma raw_table_rows_witness :
  exists r,
    evaluate (fun _ _ => tt) (fun _ => [(1 # 4, 3 # 4); (3 # 5, 2 # 5)]%Q)
      ["test/1abc_0.png"; "test/1abc_1.png"]%string (<["1abc" := 1%Z]> ∅) 2
    = inr r
    /\ length (raw_predictions r) = 2.
Proof.
  eexists. split; [reflexivity|].
  apply (raw_table_rows (fun _ _ => tt)
           (fun _ => [(1 # 4, 3 # 4); (3 # 5, 2 # 5)]%Q)
           ["test/1abc_0.png"; "test/1abc_1.png"]%string (<["1abc" := 1%Z]> ∅) 2).
  reflexivity.
Defined.

Lemma structure_table_rows_witness :
  exists r,
    evaluate (fun _ _ => tt) (fun _ => [(1 # 4, 3 # 4); (3 # 5, 2 # 5)]%Q)
      ["test/1abc_0.png"; "test/1abc_1.png"]%string (<["1abc" := 1%Z]> ∅) 2
    = inr r
    /\ length (averaged_predictions r) = 1
    /\ length (counted_predictions r) = 1.
Proof.
  eexists. split; [reflexivity|].
  edestruct (structure_table_rows (fun _ _ => tt)
               (fun _ => [(1 # 4, 3 # 4); (3 # 5, 2 # 5)]%Q)
               ["test/1abc_0.png"; "test/1abc_1.png"]%string (<["1abc" := 1%Z]> ∅) 2)
    as (Ha & Hc & _); [reflexivity|].
  split; [exact Ha | exact Hc].
Defined.

Lemma evaluate_matrix_sums_witness :
  exists r,
    evaluate (fun _ _ => tt) (fun _ => [(1 # 4, 3 # 4); (3 # 5, 2 # 5)]%Q)
      ["test/1abc_0.png"; "test/1abc_1.png"]%string (<["1abc" := 1%Z]> ∅) 2
    = inr r
    /\ matrix_sum (per_image_conf r) = 2
    /\ matrix_sum (average_conf r) = 1.
Proof.
  eexists. split; [reflexivity|].
  edestruct (evaluate_matrix_sums (fun _ _ => tt)
               (fun _ => [(1 # 4, 3 # 4); (3 # 5, 2 # 5)]%Q)
               ["test/1abc_0.png"; "test/1abc_1.png"]%string (<["1abc" := 1%Z]> ∅) 2)
    as (Hi & Ha & _); [reflexivity|].
  split; [exact Hi | exact Ha].
Defined.

(** ** Majority vote and score bounds *)

Lemma fraction_above_half (S : nat) (column : list Z) :
  0 < S ->
  (1 # 2 < fraction S column)%Q <-> (Z.of_nat S < 2 * sum_Z column)%Z.
Proof.
  intros HS. pose proof (inject_nat_pos S HS) as Hpos. unfold fraction. split.
  - intros Hlt.
    apply (Qmult_lt_compat_r _ _ (inject_Z (Z.of_nat S)) Hpos) in Hlt.
    rewrite Qmult_comm, (Qmult_comm (_ / _)), Qmult_div_r in Hlt by lra.
    rewrite Zlt_Qlt, inject_Z_mult. change (inject_Z 2) with 2%Q. lra.
  - intros Hlt. apply Qlt_shift_div_l; [done|].
    rewrite Zlt_Qlt, inject_Z_mult in Hlt.
    change (inject_Z 2) with 2%Q in Hlt. lra.
Qed.

(** X8. The count-based decision of a structure is a strict majority vote of
    its slices: it is 1 exactly when more than half of the slices of the batch
    have a positive channel above the negative one, and 0 otherwise (also on
    an exact half). *)
Theorem count_decision_majority
    (S : nat) (predictions : list Prediction) (i : nat) (batch : list Prediction) :
  batches S predictions !! i = Some batch ->
  (predictions_struct_count_flat S predictions !! i = Some 1%Z
   <-> length batch < 2 * length (predictions_1 batch))
  /\ (predictions_struct_count_flat S predictions !! i = Some 0%Z
      <-> 2 * length (predictions_1 batch) <= length batch).
Proof.
  intros Hb. destruct (flat_lookup _ _ _ _ Hb) as [_ ->].
  destruct (batch_of_batches _ _ _ _ Hb) as (HS & Hlen & _).
  assert (Hiff : (1 # 2 < count_fraction S batch)%Q
                 <-> length batch < 2 * length (predictions_1 batch)).
  { unfold count_fraction. rewrite fraction_above_half by done.
    rewrite positive_votes_count, Hlen. lia. }
  split.
  - rewrite <- Hiff, <- decide_half_1. split; [by intros [= ->] | by intros ->].
  - split.
    + intros [= H0]. apply decide_half_0 in H0. apply Qle_not_lt in H0.
      rewrite Hiff in H0. lia.
    + intros Hle. f_equal. apply decide_half_0. apply Qnot_lt_le.
      rewrite Hiff. lia.
Qed.

Lemma count_decision_majority_witness :
  predictions_struct_count_flat 2 [(1 # 4, 3 # 4); (3 # 5, 2 # 5)]%Q !! 0 = Some 0%Z.
Proof.
  apply (count_decision_majority 2 [(1 # 4, 3 # 4); (3 # 5, 2 # 5)]%Q 0
           [(1 # 4, 3 # 4); (3 # 5, 2 # 5)]%Q).
  - reflexivity.
  - simpl. lia.
Defined.





(** ** Structure decisions and the rounding of the mean *)

Lemma decide_score_1 (pred : Score) :
  decide_score pred = 1%Z
  <-> pred = PlusInfinity \/ exists m, pred = Number m /\ (1 # 2 < m)%Q.
Proof.
  destruct pred as [q| | |]; simpl.
  - rewrite decide_half_1. split.
    + intros Hq. right. by exists q.
    + intros [[=]|(m & [= <-] & Hm)]. done.
  - split; [by left | done].
  - split; [done | intros [[=]|(m & [=] & _)]].
  - split; [done | intros [[=]|(m & [=] & _)]].
Qed.

Lemma decide_score_cases (pred : Score) :
  decide_score pred = 1%Z \/ decide_score pred = 0%Z.
Proof. destruct pred; simpl; auto using decide_half_cases. Qed.

Lemma avg_np_lookup (np_mean : list Q -> Score)
    (S i : nat) (predictions batch : list Prediction) :
  batches S predictions !! i = Some batch ->
  predictions_struct_avg_flat_np np_mean S predictions !! i
  = Some (decide_score (np_mean (map positive batch))).
Proof.
  intros Hb. unfold predictions_struct_avg_flat_np, predictions_structure_avg_np.
  unfold batches in Hb. rewrite list_lookup_fmap in Hb.
  rewrite !list_lookup_fmap.
  destruct (structure_range S predictions !! i) as [j|]; [|done].
  simpl in *. by injection Hb as <-.
Qed.

(** With exact means the computed table is the table of [mean]. *)
Lemma avg_np_exact (S : nat) (predictions : list Prediction) :
  predictions_struct_avg_flat_np (fun xs => Number (mean xs)) S predictions
  = predictions_struct_avg_flat S predictions.
Proof.
  unfold predictions_struct_avg_flat_np, predictions_structure_avg_np.
  unfold predictions_struct_avg_flat, predictions_structure_avg.
  rewrite !map_map. done.
Qed.

Lemma above_half_scaled (m total : Q) (S : nat) :
  0 < S ->
  (m * inject_Z (Z.of_nat S) == total)%Q ->
  (1 # 2 < m)%Q <-> (inject_Z (Z.of_nat S) < 2 * total)%Q.
Proof.
  intros HS Hm. pose proof (inject_nat_pos S HS) as Hpos.
  rewrite <- Hm. split; intros Hlt; nra.
Qed.

Lemma mean_scaled (xs : list Q) :
  xs <> [] -> (mean xs * inject_Z (Z.of_nat (length xs)) == sum_Q xs)%Q.
Proof.
  intros Hne. unfold mean.
  assert (Hpos : (0 < inject_Z (Z.of_nat (length xs)))%Q).
  { apply inject_nat_pos. destruct xs; [done | simpl; lia]. }
  field. lra.
Qed.

(** ** Rounding to binary64 around one half *)

Lemma two_power_pos (z : Z) : (0 < 2 ^ z)%Q.
Proof. apply Qpower_0_lt. lra. Qed.

Lemma two_power_succ (z : Z) : (2 ^ (z + 1) == 2 * 2 ^ z)%Q.
Proof. rewrite Qpower_plus by lra. change (2 ^ 1)%Q with 2%Q. ring. Qed.

Lemma two_power_pred (z : Z) : (2 * 2 ^ (z - 1) == 2 ^ z)%Q.
Proof. rewrite <- two_power_succ. by replace (z - 1 + 1)%Z with z by lia. Qed.

Lemma two_power_inject (z : Z) : (0 <= z)%Z -> (inject_Z (2 ^ z) == 2 ^ z)%Q.
Proof. intros Hz. by rewrite Zpower_Qpower. Qed.

Lemma floor_log2_spec (a : Q) :
  (0 < a)%Q -> (2 ^ floor_log2 a <= a)%Q /\ (a < 2 ^ (floor_log2 a + 1))%Q.
Proof.
  intros Ha. destruct a as [n d].
  assert (Hn : (0 < n)%Z) by (unfold Qlt in Ha; simpl in Ha; lia).
  pose proof (Z.log2_spec n Hn) as [Hn1 Hn2].
  pose proof (Z.log2_spec (Zpos d) (Pos2Z.is_pos d)) as [Hd1 Hd2].
  pose proof (Z.log2_nonneg n) as Hln.
  pose proof (Z.log2_nonneg (Zpos d)) as Hld.
  unfold floor_log2. cbn [Qnum Qden].
  set (ln := Z.log2 n) in *. set (ld := Z.log2 (Zpos d)) in *.
  rewrite Zle_Qle in Hn1, Hd1. rewrite Zlt_Qlt in Hn2, Hd2.
  rewrite two_power_inject in Hn1, Hd1 by done.
  unfold Z.succ in Hn2, Hd2.
  rewrite two_power_inject, two_power_succ in Hn2, Hd2 by lia.
  pose proof (two_power_pos ln) as HA. pose proof (two_power_pos ld) as HB.
  assert (He : (2 ^ (ln - ld) == 2 ^ ln / 2 ^ ld)%Q) by (apply Qpower_minus; lra).
  assert (Hq : (n # d == inject_Z n / inject_Z (Zpos d))%Q) by apply Qmake_Qdiv.
  assert (Hd : (0 < inject_Z (Zpos d))%Q) by lra.
  destruct (Qle_bool (2 ^ (ln - ld)) (n # d)) eqn:Hle.
  - apply Qle_bool_iff in Hle. split; [done|].
    rewrite two_power_succ, He, Hq.
    apply Qlt_shift_div_r; [done|].
    assert (Hmul : (2 * (2 ^ ln / 2 ^ ld) * inject_Z (Z.pos d)
                    == (2 * 2 ^ ln) * (inject_Z (Z.pos d) / 2 ^ ld))%Q) by (field; lra).
    rewrite Hmul.
    assert (1 <= inject_Z (Z.pos d) / 2 ^ ld)%Q by (apply Qle_shift_div_l; lra).
    nra.
  - assert (Hlt : (n # d < 2 ^ (ln - ld))%Q).
    { apply Qnot_le_lt. intros H. apply Qle_bool_iff in H. congruence. }
    replace (ln - ld - 1 + 1)%Z with (ln - ld)%Z by lia. split; [|done].
    apply (Qmult_le_l _ _ 2); [lra|]. rewrite two_power_pred, He, Hq.
    apply Qle_shift_div_r; [done|].
    assert (Hmul : (2 * (inject_Z n / inject_Z (Z.pos d)) * 2 ^ ld
                    == inject_Z n * ((2 * 2 ^ ld) / inject_Z (Z.pos d)))%Q)
      by (field; lra).
    rewrite Hmul.
    assert (1 <= (2 * 2 ^ ld) / inject_Z (Z.pos d))%Q by (apply Qle_shift_div_l; lra).
    nra.
Qed.

Lemma round_half_even_bounds (x : Q) :
  (Qfloor x <= round_half_even x <= Qfloor x + 1)%Z.
Proof.
  unfold round_half_even.
  destruct (x - inject_Z (Qfloor x) ?= 1 # 2)%Q; [destruct (Z.even _)| |]; lia.
Qed.

Lemma round_half_even_inject (x : Q) (z : Z) :
  (x == inject_Z z)%Q -> round_half_even x = z.
Proof.
  intros Hx. unfold round_half_even.
  assert (Hf : Qfloor x = z) by (rewrite Hx; apply Qfloor_Z).
  rewrite Hf.
  assert (Hlt : (x - inject_Z z < 1 # 2)%Q) by (rewrite Hx; lra).
  destruct (Qcompare_spec (x - inject_Z z) (1 # 2)) as [Heq|_|Hgt]; [lra | done | lra].
Qed.

Lemma floor_ge (x : Q) (z : Z) : (inject_Z z <= x)%Q -> (z <= Qfloor x)%Z.
Proof. intros Hz. rewrite <- (Qfloor_Z z). by apply Qfloor_resp_le. Qed.

Lemma floor_lt (x : Q) (z : Z) : (x < inject_Z z)%Q -> (Qfloor x < z)%Z.
Proof.
  intros Hz. pose proof (Qfloor_le x) as Hf.
  rewrite Zlt_Qlt. lra.
Qed.

Lemma Qabs_of_pos (q : Q) : (0 < q)%Q -> Qabs q = q.
Proof.
  destruct q as [n d]. unfold Qlt. simpl. intros Hn. f_equal. lia.
Qed.

(** The rounded value of a positive number. *)
Lemma round_binary64_pos (q : Q) :
  (0 < q)%Q ->
  round_binary64 q
  = (inject_Z (round_half_even (q * 2 ^ (52 - floor_log2 q)))
     * 2 ^ (floor_log2 q - 52))%Q.
Proof.
  intros Hq. unfold round_binary64.
  destruct (Qeq_bool q 0) eqn:H0.
  { apply Qeq_bool_iff in H0. lra. }
  assert (Hle : Qle_bool 0 q = true) by (apply Qle_bool_iff; lra).
  by rewrite Hle, Qabs_of_pos.
Qed.

Lemma scaled_power (e : Z) : (2 ^ e * 2 ^ (52 - e) == inject_Z (2 ^ 52))%Q.
Proof.
  rewrite <- Qpower_plus by lra. replace (e + (52 - e))%Z with 52%Z by lia.
  by rewrite two_power_inject.
Qed.

Lemma unscaled_power (e : Z) : (inject_Z (2 ^ 52) * 2 ^ (e - 52) == 2 ^ e)%Q.
Proof.
  rewrite two_power_inject by lia. rewrite <- Qpower_plus by lra.
  by replace (52 + (e - 52))%Z with e by lia.
Qed.

Lemma round_binary64_above_half (q : Q) :
  ((1 # 2) + (1 # 9007199254740992) <= q)%Q -> (1 # 2 < round_binary64 q)%Q.
Proof.
  intros Hq. rewrite round_binary64_pos by lra.
  destruct (floor_log2_spec q) as [Hlo Hhi]; [lra|].
  set (e := floor_log2 q) in *.
  pose proof (two_power_pos (52 - e)) as Hs.
  pose proof (two_power_pos (e - 52)) as Hu.
  pose proof (round_half_even_bounds (q * 2 ^ (52 - e))) as [Hr _].
  destruct (Z_lt_le_dec e 0) as [Hneg|Hnn].
  - assert (He : e = (-1)%Z).
    { destruct (Z_lt_le_dec e (-1)) as [Hlt|]; [|lia].
      assert (2 ^ (e + 1) <= 2 ^ (-1))%Q by (apply Qpower_le_compat_l; [lia | lra]).
      change (2 ^ (-1))%Q with (1 # 2)%Q in *. lra. }
    rewrite He in *. clear He.
    assert (Hfl : (2 ^ 52 + 1 <= Qfloor (q * 2 ^ (52 - -1)))%Z).
    { apply floor_ge. change (2 ^ (52 - -1))%Q with (inject_Z (2 ^ 53)).
      assert (Hc : (inject_Z (2 ^ 52 + 1)
                    == ((1 # 2) + (1 # 9007199254740992)) * inject_Z (2 ^ 53))%Q)
        by reflexivity.
      rewrite Hc. apply Qmult_le_compat_r; [done | done]. }
    change (2 ^ (-1 - 52))%Q with (1 # 9007199254740992)%Q.
    assert (inject_Z (2 ^ 52 + 1) <= inject_Z (round_half_even (q * 2 ^ (52 - -1))))%Q
      by (rewrite <- Zle_Qle; lia).
    change (inject_Z (2 ^ 52 + 1)) with (4503599627370497 # 1)%Q in *.
    lra.
  - assert (Hone : (1 <= 2 ^ e)%Q) by (apply Qpower_1_le; [lra | done]).
    assert (Hfl : (2 ^ 52 <= Qfloor (q * 2 ^ (52 - e)))%Z).
    { apply floor_ge. rewrite <- scaled_power with (e := e).
      apply Qmult_le_compat_r; [done | lra]. }
    assert (Hrr : (inject_Z (2 ^ 52) <= inject_Z (round_half_even (q * 2 ^ (52 - e))))%Q)
      by (rewrite <- Zle_Qle; lia).
    apply (Qmult_le_compat_r _ _ (2 ^ (e - 52))) in Hrr; [|lra].
    rewrite unscaled_power in Hrr. lra.
Qed.

Lemma round_binary64_below_half (q : Q) :
  (q <= 1 # 2)%Q -> (round_binary64 q <= 1 # 2)%Q.
Proof.
  intros Hq. destruct (Qlt_le_dec 0 q) as [Hpos|Hneg].
  - rewrite round_binary64_pos by done.
    destruct (floor_log2_spec q) as [Hlo Hhi]; [done|].
    set (e := floor_log2 q) in *.
    pose proof (two_power_pos (52 - e)) as Hs.
    pose proof (two_power_pos (e - 52)) as Hu.
    assert (He : (e <= -1)%Z).
    { destruct (Z_lt_le_dec e 0) as [|Hnn]; [lia|].
      assert (1 <= 2 ^ e)%Q by (apply Qpower_1_le; [lra | done]). lra. }
    destruct (Z_lt_le_dec e (-1)) as [Hlt|Hge].
    + pose proof (round_half_even_bounds (q * 2 ^ (52 - e))) as [_ Hr].
      assert (Hfl : (Qfloor (q * 2 ^ (52 - e)) < 2 ^ 53)%Z).
      { apply floor_lt.
        assert (Hc : (inject_Z (2 ^ 53) == 2 * (2 ^ e * 2 ^ (52 - e)))%Q)
          by (rewrite scaled_power; reflexivity).
        rewrite Hc. rewrite two_power_succ in Hhi. nra. }
      assert (Hrr : (inject_Z (round_half_even (q * 2 ^ (52 - e)))
                     <= 2 * inject_Z (2 ^ 52))%Q).
      { assert (Hc : (2 * inject_Z (2 ^ 52) == inject_Z (2 ^ 53))%Q) by reflexivity.
        rewrite Hc, <- Zle_Qle. lia. }
      apply (Qmult_le_compat_r _ _ (2 ^ (e - 52))) in Hrr; [|lra].
      rewrite <- Qmult_assoc, unscaled_power, <- two_power_succ in Hrr.
      assert (2 ^ (e + 1) <= 2 ^ (-1))%Q by (apply Qpower_le_compat_l; [lia | lra]).
      change (2 ^ (-1))%Q with (1 # 2)%Q in *. lra.
    + assert (e = (-1)%Z) as -> by lia.
      change (2 ^ (-1))%Q with (1 # 2)%Q in Hlo.
      rewrite (round_half_even_inject _ (2 ^ 52)).
      * unfold Qle. simpl. lia.
      * assert (Hhalf : (q == 1 # 2)%Q) by lra. rewrite Hhalf. reflexivity.
  - unfold round_binary64.
    destruct (Qeq_bool q 0) eqn:H0; [lra|].
    apply Qeq_bool_neq in H0.
    set (a := Qabs q). set (e := floor_log2 a).
    pose proof (two_power_pos (52 - e)) as Hs.
    pose proof (two_power_pos (e - 52)) as Hu.
    pose proof (Qabs_nonneg q) as Ha. fold a in Ha.
    pose proof (round_half_even_bounds (a * 2 ^ (52 - e))) as [Hr _].
    assert (Hfl : (0 <= Qfloor (a * 2 ^ (52 - e)))%Z).
    { apply floor_ge. change (inject_Z 0) with 0%Q. nra. }
    assert (Hrr : (0 <= inject_Z (round_half_even (a * 2 ^ (52 - e))))%Q).
    { change 0%Q with (inject_Z 0). rewrite <- Zle_Qle. lia. }
    destruct (Qle_bool 0 q) eqn:Hle.
    + apply Qle_bool_iff in Hle.
      exfalso. apply H0. lra.
    + nra.
Qed.

(** Rounding a quotient of naturals k / S to binary64 does not move it across
    one half while S is at most 2^52. *)
Lemma round_binary64_fraction (S : nat) (column : list Z) :
  0 < S -> (Z.of_nat S <= 2 ^ 52)%Z ->
  decide_half (round_binary64 (fraction S column)) = decide_half (fraction S column).
Proof.
  intros HS Hbound. pose proof (inject_nat_pos S HS) as Hpos.
  destruct (decide_half_cases (fraction S column)) as [Hd|Hd]; rewrite Hd.
  - apply decide_half_1. apply round_binary64_above_half.
    apply decide_half_1, fraction_above_half in Hd; [|done].
    unfold fraction. apply Qle_shift_div_l; [done|].
    assert (Hk : (inject_Z (Z.of_nat S) + 1 <= 2 * inject_Z (sum_Z column))%Q).
    { change 1%Q with (inject_Z 1). change 2%Q with (inject_Z 2).
      rewrite <- inject_Z_plus, <- inject_Z_mult, <- Zle_Qle. lia. }
    assert (Hs : (inject_Z (Z.of_nat S) <= inject_Z (2 ^ 52))%Q) by (by rewrite <- Zle_Qle).
    assert (Hc : (inject_Z (2 ^ 52) * (1 # 9007199254740992) == 1 # 2)%Q) by reflexivity.
    nra.
  - apply decide_half_0. apply round_binary64_below_half. by apply decide_half_0.
Qed.

(** The claim of C5 fails under floating-point rounding: in the batch
    (0.25, 0.5 + 2^-53), (0.25, 0.5) the arithmetic mean of the positive
    channel is 0.5 + 2^-54, above one half, but the binary64 sum of the two
    scores rounds to 1, the computed mean is exactly 0.5, and the
    average-based decision is 0. *)
Lemma structure_decisions_threshold_counterexample :
  batches 2 [(1 # 4, 4503599627370497 # 9007199254740992); (1 # 4, 1 # 2)]%Q !! 0
  = Some [(1 # 4, 4503599627370497 # 9007199254740992); (1 # 4, 1 # 2)]%Q
  /\ Forall (fun p => (round_binary64 (negative p) == negative p)%Q
                      /\ (round_binary64 (positive p) == positive p)%Q)
            [(1 # 4, 4503599627370497 # 9007199254740992); (1 # 4, 1 # 2)]%Q
  /\ (1 # 2 < mean_positive
                [(1 # 4, 4503599627370497 # 9007199254740992); (1 # 4, 1 # 2)])%Q
  /\ (exists m,
         float64_mean [4503599627370497 # 9007199254740992; 1 # 2]%Q = Some m
         /\ (m == 1 # 2)%Q)
  /\ predictions_struct_avg_flat_np float64_mean_score 2
       [(1 # 4, 4503599627370497 # 9007199254740992); (1 # 4, 1 # 2)]%Q !! 0
     = Some 0%Z.
Proof.
  split; [reflexivity|].
  split; [repeat constructor|].
  split; [reflexivity|].
  split; [eexists; split; [reflexivity | reflexivity]|].
  vm_compute. reflexivity.
Qed.

(** C5, amended. For batch i, the average-based structure decision is 1
    exactly when the mean of the batch's positive scores as numpy computed it
    is strictly greater than 1/2 (plus infinity included, nan excluded) and 0
    otherwise; a computed mean equal to 1/2 gives 0.  Where the computed mean
    is the arithmetic mean (its product with S is the sum of the positive
    scores), the decision is 1 exactly when that sum exceeds S/2; this is the
    decision of the table of exact means.  The count-based decision is 1
    exactly when the count fraction is strictly greater than 1/2, the count
    fraction being the number of slices whose positive score exceeds the
    negative one divided by S, that is when more than half of the S slices
    are such; it is 0 otherwise, and rounding the count fraction to binary64
    leaves the decision as it is while S is at most 2^52. *)
Theorem structure_decisions_threshold
    (np_mean : list Q -> Score)
    (S : nat) (predictions : list Prediction) (i : nat) (batch : list Prediction) :
  batches S predictions !! i = Some batch ->
  exists avg cnt,
    predictions_struct_avg_flat_np np_mean S predictions !! i = Some avg
    /\ predictions_struct_count_flat S predictions !! i = Some cnt
    /\ (avg = 1%Z
        <-> np_mean (map positive batch) = PlusInfinity
            \/ exists m, np_mean (map positive batch) = Number m /\ (1 # 2 < m)%Q)
    /\ (avg = 0%Z
        <-> ~ (np_mean (map positive batch) = PlusInfinity
               \/ exists m, np_mean (map positive batch) = Number m /\ (1 # 2 < m)%Q))
    /\ (forall m, np_mean (map positive batch) = Number m ->
                  (m == 1 # 2)%Q -> avg = 0%Z)
    /\ (forall m, np_mean (map positive batch) = Number m ->
                  (m * inject_Z (Z.of_nat S) == sum_Q (map positive batch))%Q ->
                  (avg = 1%Z
                   <-> (inject_Z (Z.of_nat S) < 2 * sum_Q (map positive batch))%Q))
    /\ (mean_positive batch * inject_Z (Z.of_nat S) == sum_Q (map positive batch))%Q
    /\ (predictions_struct_avg_flat S predictions !! i = Some 1%Z
        <-> (inject_Z (Z.of_nat S) < 2 * sum_Q (map positive batch))%Q)
    /\ (count_fraction S batch * inject_Z (Z.of_nat S)
        == inject_Z (Z.of_nat (length (predictions_1 batch))))%Q
    /\ (cnt = 1%Z <-> (1 # 2 < count_fraction S batch)%Q)
    /\ (cnt = 0%Z <-> ~ (1 # 2 < count_fraction S batch)%Q)
    /\ (cnt = 1%Z <-> S < 2 * length (predictions_1 batch))
    /\ ((Z.of_nat S <= 2 ^ 52)%Z ->
        decide_half (round_binary64 (count_fraction S batch)) = cnt).
Proof.
  intros Hb.
  destruct (batch_of_batches _ _ _ _ Hb) as (HS & Hlen & _).
  destruct (flat_lookup _ _ _ _ Hb) as [Havg Hcnt].
  pose proof (inject_nat_pos S HS) as Hpos.
  assert (Hne : batch <> []) by (intros ->; simpl in Hlen; lia).
  assert (Hmean : (mean_positive batch * inject_Z (Z.of_nat S)
                   == sum_Q (map positive batch))%Q).
  { unfold mean_positive. rewrite <- Hlen, <- (length_map positive).
    apply mean_scaled. by destruct batch. }
  exists (decide_score (np_mean (map positive batch))),
         (decide_half (count_fraction S batch)).
  split; [by apply avg_np_lookup|]. split; [exact Hcnt|].
  split; [apply decide_score_1|].
  split.
  { rewrite <- decide_score_1.
    destruct (decide_score_cases (np_mean (map positive batch))) as [-> | ->]; split; done. }
  split.
  { intros m -> Hm. simpl. apply decide_half_0. rewrite Hm. apply Qle_refl. }
  split.
  { intros m -> Hm. simpl. rewrite decide_half_1. by apply above_half_scaled. }
  split; [exact Hmean|].
  split.
  { rewrite Havg, <- (above_half_scaled _ _ _ HS Hmean), <- decide_half_1.
    split; [by intros [= ->] | by intros ->]. }
  split.
  { unfold count_fraction, fraction. rewrite positive_votes_count. field. lra. }
  split; [apply decide_half_1|].
  split.
  { rewrite decide_half_0. split; [apply Qle_not_lt | apply Qnot_lt_le]. }
  split.
  { rewrite decide_half_1. unfold count_fraction.
    rewrite fraction_above_half by done. rewrite positive_votes_count. lia. }
  intros Hbound. unfold count_fraction. by apply round_binary64_fraction.
Qed.

Lemma structure_decisions_threshold_witness :
  exists avg cnt,
    predictions_struct_avg_flat_np float64_mean_score 2
      [(1 # 4, 4503599627370497 # 9007199254740992); (1 # 4, 1 # 2)]%Q !! 0 = Some avg
    /\ predictions_struct_count_flat 2
         [(1 # 4, 4503599627370497 # 9007199254740992); (1 # 4, 1 # 2)]%Q !! 0 = Some cnt
    /\ avg = 0%Z
    /\ cnt = 1%Z.
Proof.
  destruct (structure_decisions_threshold float64_mean_score 2
              [(1 # 4, 4503599627370497 # 9007199254740992); (1 # 4, 1 # 2)]%Q 0
              [(1 # 4, 4503599627370497 # 9007199254740992); (1 # 4, 1 # 2)]%Q)
    as (avg & cnt & Havg & Hcnt & _ & _ & Htie & _ & _ & _ & _ & _ & _ & Hmaj & _).
  - reflexivity.
  - exists avg, cnt. split; [exact Havg|]. split; [exact Hcnt|]. split.
    + apply (Htie (round_binary64
                     (foldl (fun r x => round_binary64 (r + x)) 0%Q
                        [4503599627370497 # 9007199254740992; 1 # 2]%Q
                      / inject_Z 2))); reflexivity.
    + apply Hmaj. vm_compute. lia.
Defined.

(** ** Structure names of slice files *)

Lemma match_at_no_suffix (s : list ascii) :
  ~ has_index_suffix s -> match_at s = None.
Proof.
  intros Hno. destruct (match_at s) as [m|] eqn:Hm; [|done].
  destruct Hno. by eapply match_at_some.
Qed.

Lemma match_at_last_suffix (name : list ascii) (d : ascii) (rest : list ascii) :
  newline ∉ name -> is_digit d = true -> ~ has_index_suffix (d :: rest) ->
  match_at (name ++ underscore :: d :: rest) = Some name.
Proof.
  intros Hnl Hd Hno. induction name as [|c name IH].
  - simpl app. rewrite match_at_cons.
    replace (ascii_eqb underscore newline) with false by reflexivity.
    rewrite (match_at_no_suffix _ Hno).
    assert (Hla : lookahead (underscore :: d :: rest) = true).
    { apply lookahead_spec. eauto. }
    by rewrite Hla.
  - apply not_elem_of_cons in Hnl as [Hc Hnl].
    simpl app. rewrite match_at_cons.
    assert (Hcn : ascii_eqb c newline = false).
    { unfold ascii_eqb. by apply bool_decide_eq_false. }
    rewrite Hcn, (IH Hnl). done.
Qed.

(** X11. The structure name of a stem is what precedes its last underscore
    followed by a digit: for a name without a line break, followed by an
    underscore and a digit after which no further underscore-digit occurs,
    the extraction returns the name. *)
Theorem structure_name_last_suffix (name : list ascii) (d : ascii) (rest : list ascii) :
  newline ∉ name -> is_digit d = true -> ~ has_index_suffix (d :: rest) ->
  findall_first (name ++ underscore :: d :: rest) = Some name.
Proof.
  intros Hnl Hd Hno.
  pose proof (match_at_last_suffix name d rest Hnl Hd Hno) as Hm.
  destruct name as [|c name]; simpl app in *;
    by rewrite findall_first_cons, Hm.
Qed.

Lemma structure_name_last_suffix_witness :
  findall_first (list_ascii_of_string "1abc_3_12") = Some (list_ascii_of_string "1abc_3").
Proof.
  apply (structure_name_last_suffix (list_ascii_of_string "1abc_3") "1"%char
           (list_ascii_of_string "2")).
  - intros Hin. repeat (apply elem_of_cons in Hin as [Hin|Hin]; [discriminate|]).
    by apply elem_of_nil in Hin.
  - reflexivity.
  - intros (pre & d & rest & Heq & Hd).
    destruct pre as [|? [|? [|? ?]]]; simpl in Heq; discriminate.
Defined.

Lemma digits_no_suffix (digits : list ascii) :
  Forall (fun c => is_digit c = true) digits -> ~ has_index_suffix digits.
Proof.
  intros Hall (pre & d & rest & -> & _).
  apply Forall_app in Hall as [_ Hall]. apply Forall_cons in Hall as [Hu _].
  discriminate.
Qed.

Lemma split_slash_nonempty (s : list ascii) : split_slash s <> [].
Proof.
  destruct s as [|c t]; simpl; [done|].
  destruct (ascii_eqb c slash); [done|]. by destruct (split_slash t).
Qed.

Lemma split_slash_app (a b : list ascii) :
  split_slash (a ++ slash :: b) = split_slash a ++ split_slash b.
Proof.
  induction a as [|c a IH]; simpl.
  - replace (ascii_eqb slash slash) with true by reflexivity. done.
  - destruct (ascii_eqb c slash); [by rewrite IH|].
    rewrite IH. pose proof (split_slash_nonempty a).
    by destruct (split_slash a).
Qed.

Lemma split_slash_component (b : list ascii) :
  slash ∉ b -> split_slash b = [b].
Proof.
  induction b as [|c b IH]; intros Hb; simpl; [done|].
  apply not_elem_of_cons in Hb as [Hc Hb].
  assert (Hcs : ascii_eqb c slash = false).
  { unfold ascii_eqb. apply bool_decide_eq_false. congruence. }
  by rewrite Hcs, (IH Hb).
Qed.

Lemma path_name_last_component (dir comp : list ascii) :
  slash ∉ comp -> comp <> [] -> comp <> [dot] ->
  path_name (dir ++ slash :: comp) = comp.
Proof.
  intros Hs Hne Hdot. unfold path_name.
  rewrite split_slash_app, (split_slash_component comp Hs), filter_app.
  rewrite (filter_cons_True _ comp) by done.
  rewrite filter_nil, last_snoc. done.
Qed.

Lemma rfind_dot_none (s : list ascii) : dot ∉ s -> rfind_dot s = None.
Proof.
  induction s as [|c s IH]; intros Hs; simpl; [done|].
  apply not_elem_of_cons in Hs as [Hc Hs]. rewrite (IH Hs).
  assert (Hcd : ascii_eqb c dot = false).
  { unfold ascii_eqb. apply bool_decide_eq_false. congruence. }
  by rewrite Hcd.
Qed.

Lemma rfind_dot_last (base ext : list ascii) :
  dot ∉ ext -> rfind_dot (base ++ dot :: ext) = Some (length base).
Proof.
  intros Hext. induction base as [|c base IH]; simpl.
  - rewrite (rfind_dot_none ext Hext).
    replace (ascii_eqb dot dot) with true by reflexivity. done.
  - by rewrite IH.
Qed.

Lemma stem_of_name_suffix (base ext : list ascii) :
  base <> [] -> ext <> [] -> dot ∉ ext ->
  stem_of_name (base ++ dot :: ext) = base.
Proof.
  intros Hb He Hd. unfold stem_of_name. rewrite (rfind_dot_last base ext Hd).
  assert (H0 : (0 <? length base) = true).
  { apply Nat.ltb_lt. destruct base; [done | simpl; lia]. }
  assert (H1 : (length base + 1 <? length (base ++ dot :: ext)) = true).
  { apply Nat.ltb_lt. rewrite length_app. simpl. destruct ext; [done | simpl; lia]. }
  rewrite H0, H1. simpl. by rewrite take_app_length.
Qed.

(** X12. A slice file [dir/NAME_DIGITS.EXT] has structure name [NAME]: when
    [NAME] has no slash and no line break, [DIGITS] is a non-empty run of
    decimal digits and [EXT] is a non-empty extension without dot or slash, the
    stem of the file is [NAME_DIGITS] and the name extraction of line 62
    yields [NAME]. *)
Theorem structure_name_of_file (dir name digits ext : list ascii) :
  slash ∉ name -> newline ∉ name ->
  digits <> [] -> Forall (fun c => is_digit c = true) digits ->
  ext <> [] -> slash ∉ ext -> dot ∉ ext ->
  stem (string_of_list_ascii (dir ++ slash :: name ++ underscore :: digits ++ dot :: ext))
  = name ++ underscore :: digits
  /\ extract_names
       [string_of_list_ascii (dir ++ slash :: name ++ underscore :: digits ++ dot :: ext)]
     = inr [string_of_list_ascii name].
Proof.
  intros Hns Hnn Hdne Hdig Hene Hes Hed.
  assert (Hslash_digits : slash ∉ digits).
  { intros Hin. rewrite Forall_forall in Hdig. by specialize (Hdig _ Hin). }
  assert (Hstem : stem (string_of_list_ascii
                          (dir ++ slash :: name ++ underscore :: digits ++ dot :: ext))
                  = name ++ underscore :: digits).
  { unfold stem. rewrite list_ascii_of_string_of_list_ascii.
    rewrite path_name_last_component.
    - replace (name ++ underscore :: digits ++ dot :: ext)
        with ((name ++ underscore :: digits) ++ dot :: ext)
        by (by rewrite <- app_assoc).
      apply stem_of_name_suffix; [by destruct name | done | done].
    - rewrite elem_of_app, elem_of_cons, elem_of_app, elem_of_cons.
      intros [?|[?|[?|[?|?]]]]; done.
    - by destruct name.
    - destruct name as [|c [|? ?]]; [done| |done].
      destruct digits; done. }
  split; [done|].
  cbn [extract_names]. rewrite Hstem.
  destruct digits as [|d digits]; [done|].
  apply Forall_cons in Hdig as [Hd Hdig].
  assert (Hm : match_at (name ++ underscore :: d :: digits) = Some name).
  { apply match_at_last_suffix; [done | done |].
    apply digits_no_suffix. by constructor. }
  destruct name as [|c name]; simpl app in *;
    by rewrite findall_first_cons, Hm.
Qed.

Lemma structure_name_of_file_witness :
  extract_names ["test/1abc_3.png"%string] = inr ["1abc"%string].
Proof.
  apply (structure_name_of_file (list_ascii_of_string "test")
           (list_ascii_of_string "1abc") (list_ascii_of_string "3")
           (list_ascii_of_string "png")).
  - intros Hin. repeat (apply elem_of_cons in Hin as [Hin|Hin]; [discriminate|]).
    by apply elem_of_nil in Hin.
  - intros Hin. repeat (apply elem_of_cons in Hin as [Hin|Hin]; [discriminate|]).
    by apply elem_of_nil in Hin.
  - discriminate.
  - repeat constructor.
  - discriminate.
  - intros Hin. repeat (apply elem_of_cons in Hin as [Hin|Hin]; [discriminate|]).
    by apply elem_of_nil in Hin.
  - intros Hin. repeat (apply elem_of_cons in Hin as [Hin|Hin]; [discriminate|]).
    by apply elem_of_nil in Hin.
Defined.

(** * predictions.py *)

(** ** Extremes of a slice *)

Lemma foldl_Qmin_lower (x : Q) (rest : list Q) :
  (foldl Qmin x rest <= x)%Q /\ Forall (fun y => (foldl Qmin x rest <= y)%Q) rest.
Proof.
  revert x. induction rest as [|y rest IH]; intros x; simpl.
  - split; [apply Qle_refl | constructor].
  - destruct (IH (Qmin x y)) as [Hx Hrest]. split.
    + eapply Qle_trans; [exact Hx | apply Q.le_min_l].
    + constructor; [|done]. eapply Qle_trans; [exact Hx | apply Q.le_min_r].
Qed.

Lemma foldl_Qmax_upper (x : Q) (rest : list Q) :
  (x <= foldl Qmax x rest)%Q /\ Forall (fun y => (y <= foldl Qmax x rest)%Q) rest.
Proof.
  revert x. induction rest as [|y rest IH]; intros x; simpl.
  - split; [apply Qle_refl | constructor].
  - destruct (IH (Qmax x y)) as [Hx Hrest]. split.
    + eapply Qle_trans; [apply Q.le_max_l | exact Hx].
    + constructor; [|done]. eapply Qle_trans; [apply Q.le_max_r | exact Hx].
Qed.

Lemma foldl_Qmin_attained (x : Q) (rest : list Q) :
  exists i m, (x :: rest) !! i = Some m /\ (foldl Qmin x rest == m)%Q.
Proof.
  revert x. induction rest as [|y rest IH]; intros x; simpl.
  - exists 0, x. split; [done | reflexivity].
  - destruct (IH (Qmin x y)) as (i & m & Hi & Hm).
    destruct i as [|i].
    + injection Hi as <-.
      destruct (Q.min_dec x y) as [Hd|Hd].
      * exists 0, x. split; [done|]. by rewrite Hm.
      * exists 1, y. split; [done|]. by rewrite Hm.
    + exists (Datatypes.S (Datatypes.S i)), m. split; [done | done].
Qed.

Lemma foldl_Qmax_attained (x : Q) (rest : list Q) :
  exists i m, (x :: rest) !! i = Some m /\ (foldl Qmax x rest == m)%Q.
Proof.
  revert x. induction rest as [|y rest IH]; intros x; simpl.
  - exists 0, x. split; [done | reflexivity].
  - destruct (IH (Qmax x y)) as (i & m & Hi & Hm).
    destruct i as [|i].
    + injection Hi as <-.
      destruct (Q.max_dec x y) as [Hd|Hd].
      * exists 0, x. split; [done|]. by rewrite Hm.
      * exists 1, y. split; [done|]. by rewrite Hm.
    + exists (Datatypes.S (Datatypes.S i)), m. split; [done | done].
Qed.

Lemma slice_extremes (slice : list Q) :
  slice <> [] ->
  exists lo hi,
    slice_min slice = Some lo /\ slice_max slice = Some hi
    /\ (forall i x, slice !! i = Some x -> (lo <= x <= hi)%Q)
    /\ (exists i m, slice !! i = Some m /\ (lo == m)%Q)
    /\ (exists i m, slice !! i = Some m /\ (hi == m)%Q).
Proof.
  destruct slice as [|x rest]; [done|]. intros _.
  exists (foldl Qmin x rest), (foldl Qmax x rest).
  split; [done|]. split; [done|].
  destruct (foldl_Qmin_lower x rest) as [Hlx Hlr].
  destruct (foldl_Qmax_upper x rest) as [Hux Hur].
  split; [|split; [apply foldl_Qmin_attained | apply foldl_Qmax_attained]].
  intros i y Hi. destruct i as [|i]; simpl in Hi.
  - injection Hi as <-. done.
  - rewrite Forall_lookup in Hlr, Hur. split; eauto.
Qed.

Lemma float_div_zero_zero (x y : Q) :
  (x == 0)%Q -> (y == 0)%Q -> float_div x y = NaN.
Proof.
  intros Hx Hy. unfold float_div.
  apply Qeq_bool_iff in Hx, Hy. by rewrite Hy, Hx.
Qed.

(** X14. A non-empty slice whose values are all equal is scaled to nan in
    every position (the division is 0 / 0). *)
Theorem scale_slice_constant (slice : list Q) (c : Q) :
  slice <> [] -> Forall (fun x => (x == c)%Q) slice ->
  scale_slice slice = Some (replicate (length slice) NaN).
Proof.
  intros Hne Hall.
  destruct (slice_extremes slice Hne)
    as (lo & hi & Hmin & Hmax & _ & (il & ml & Hil & Hml) & (ih & mh & Hih & Hmh)).
  rewrite Forall_lookup in Hall.
  pose proof (Hall _ _ Hil) as Hlc. pose proof (Hall _ _ Hih) as Hhc.
  unfold scale_slice. rewrite Hmin, Hmax. f_equal.
  apply list_eq. intros i. rewrite list_lookup_fmap.
  destruct (slice !! i) as [x|] eqn:Hi; simpl.
  - rewrite lookup_replicate_2 by (by eapply lookup_lt_Some).
    f_equal. pose proof (Hall _ _ Hi) as Hxc.
    apply float_div_zero_zero.
    + rewrite Hxc, Hml, Hlc. ring.
    + rewrite Hmh, Hhc, Hml, Hlc. ring.
  - symmetry. apply lookup_replicate_None. by apply lookup_ge_None.
Qed.

Lemma scale_slice_constant_witness :
  scale_slice [5; 5]%Q = Some [NaN; NaN].
Proof.
  apply (scale_slice_constant [5; 5]%Q 5%Q).
  - discriminate.
  - repeat constructor.
Defined.

(** * prepare_training_data.py *)

Section PrepareFacts.

Context {World Path Exn CellInfo Limits : Type}.
Context (ext : Collaborators World Path Exn CellInfo Limits).

(** ** The phase files of a structure *)

(** X17. The phase files chosen for a structure both exist; they are the two
    files under the space group's directory whenever the original hand exists
    there, and the files under the directory with [":H"] appended only when
    the space group starts with ["R"] and the original hand is missing from
    the plain directory.  A space group that does not start with ["R"] never
    falls back. *)
Theorem find_hands_choice (phase_dir : Path) (w : World) (struct space_group : string)
    (original_hand inverse_hand : Path) :
  find_hands ext phase_dir w struct space_group = inr (original_hand, inverse_hand) ->
  path_exists ext w original_hand = true
  /\ path_exists ext w inverse_hand = true
  /\ ((original_hand = hand ext phase_dir struct space_group ".phs"
       /\ inverse_hand = hand ext phase_dir struct space_group "_i.phs")
      \/ (exists rest, space_group = String "R"%char rest
          /\ path_exists ext w (hand ext phase_dir struct space_group ".phs") = false
          /\ original_hand = hand ext phase_dir struct (space_group +:+ ":H") ".phs"
          /\ inverse_hand = hand ext phase_dir struct (space_group +:+ ":H") "_i.phs"))
  /\ (path_exists ext w (hand ext phase_dir struct space_group ".phs") = true ->
        original_hand = hand ext phase_dir struct space_group ".phs").
Proof.
  unfold find_hands. destruct space_group as [|first rest]; [done|].
  destruct (path_exists ext w (hand ext phase_dir struct (String first rest) ".phs"))
    eqn:Hplain.
  - rewrite andb_false_r. rewrite Hplain. simpl.
    destruct (path_exists ext w (hand ext phase_dir struct (String first rest) "_i.phs"))
      eqn:Hinv; simpl; [|done].
    intros [= <- <-]. split; [done|]. split; [done|]. split; [by left | done].
  - rewrite andb_true_r. unfold ascii_eqb. case_bool_decide as HR.
    + subst first.
      destruct (path_exists ext w
                  (hand ext phase_dir struct (String "R" rest +:+ ":H") ".phs"))
        eqn:Ho; simpl; [|done].
      destruct (path_exists ext w
                  (hand ext phase_dir struct (String "R" rest +:+ ":H") "_i.phs"))
        eqn:Hi; simpl; [|done].
      intros [= <- <-]. split; [done|]. split; [done|].
      split; [|done]. right. by exists rest.
    + rewrite Hplain. simpl. done.
Qed.

(** ** The two loops *)

Lemma collect_info_keys (cell_info_dir space_group_dir : Path)
    (cell_info_path space_group_path : string) (w : World) (structs : list string)
    (cells : gmap string CellInfo) (groups : gmap string string)
    (cells' : gmap string CellInfo) (groups' : gmap string string) (w' : World) :
  collect_info ext cell_info_dir space_group_dir cell_info_path space_group_path
    w structs cells groups = inr (cells', groups', w') ->
  forall s, s ∈ structs \/ (is_Some (cells !! s) /\ is_Some (groups !! s)) ->
            is_Some (cells' !! s) /\ is_Some (groups' !! s).
Proof.
  revert w cells groups. induction structs as [|struct rest IH];
    intros w cells groups Hc s Hs.
  - simpl in Hc. injection Hc as <- <- <-.
    destruct Hs as [Hin|Hs]; [by apply elem_of_nil in Hin | done].
  - simpl in Hc.
    destruct (path_exists ext w _); simpl in Hc; [|done].
    destruct (mtz_get_cell _ _ _) as [?|[cell w1]]; [done|].
    destruct (path_exists ext w1 _); simpl in Hc; [|done].
    destruct (find_space_group _ _ _ _) as [?|[sg w2]]; [done|].
    apply (IH _ _ _ Hc).
    destruct (decide (s = struct)) as [->|Hne].
    + right. rewrite !lookup_insert_eq. eauto.
    + destruct Hs as [Hin|Hs].
      * left. apply elem_of_cons in Hin as [?|?]; done.
      * right. by rewrite !lookup_insert_ne.
Qed.

Lemma find_hands_not_missing (phase_dir : Path) (w : World)
    (struct space_group s : string) :
  find_hands ext phase_dir w struct space_group <> inl (MissingKey s).
Proof.
  unfold find_hands. destruct space_group; [done|].
  repeat (destruct (negb _); [done|]). done.
Qed.

Lemma convert_structs_prefix (phase_dir output_dir : Path) (xyz_limits : Limits)
    (cells : gmap string CellInfo) (groups : gmap string string)
    (w : World) (structs : list string) :
  omap call_target
    (calls (convert_structs ext phase_dir output_dir xyz_limits cells groups w structs))
  `prefix_of` flat_map (targets_of ext output_dir) structs
  /\ length (omap call_target
               (calls (convert_structs ext phase_dir output_dir xyz_limits
                         cells groups w structs)))
     = length (calls (convert_structs ext phase_dir output_dir xyz_limits
                        cells groups w structs)).
Proof.
  revert w. induction structs as [|struct rest IH]; intros w; simpl.
  - split; [done | done].
  - destruct (groups !! struct) as [sg|]; simpl; [|split; [apply prefix_nil | done]].
    destruct (find_hands ext phase_dir w struct sg) as [f|[oh ih]]; simpl;
      [split; [apply prefix_nil | done]|].
    destruct (cells !! struct) as [cell|]; simpl; [|split; [apply prefix_nil | done]].
    destruct (phase_to_map ext w oh _ cell sg xyz_limits) as [e|w1]; simpl.
    { split; [by apply prefix_cons, prefix_nil | done]. }
    destruct (phase_to_map ext w1 ih _ cell sg xyz_limits) as [e|w2]; simpl.
    { split; [by apply prefix_cons, prefix_cons, prefix_nil | done]. }
    destruct (IH w2) as [Hpre Hlen].
    split; [by apply prefix_cons, prefix_cons|].
    do 2 f_equal. exact Hlen.
Qed.

Lemma convert_structs_complete (phase_dir output_dir : Path) (xyz_limits : Limits)
    (cells : gmap string CellInfo) (groups : gmap string string)
    (w : World) (structs : list string) (w' : World) :
  result (convert_structs ext phase_dir output_dir xyz_limits cells groups w structs)
  = inr w' ->
  omap call_target
    (calls (convert_structs ext phase_dir output_dir xyz_limits cells groups w structs))
  = flat_map (targets_of ext output_dir) structs.
Proof.
  revert w. induction structs as [|struct rest IH]; intros w; simpl; [done|].
  destruct (groups !! struct) as [sg|]; simpl; [|done].
  destruct (find_hands ext phase_dir w struct sg) as [f|[oh ih]]; simpl; [done|].
  destruct (cells !! struct) as [cell|]; simpl; [|done].
  destruct (phase_to_map ext w oh _ cell sg xyz_limits) as [e|w1]; simpl; [done|].
  destruct (phase_to_map ext w1 ih _ cell sg xyz_limits) as [e|w2]; simpl; [done|].
  intros Hres. do 2 f_equal. by apply IH.
Qed.

Lemma convert_structs_keys (phase_dir output_dir : Path) (xyz_limits : Limits)
    (cells : gmap string CellInfo) (groups : gmap string string)
    (w : World) (structs : list string) (s : string) :
  (forall x, x ∈ structs -> is_Some (cells !! x) /\ is_Some (groups !! x)) ->
  result (convert_structs ext phase_dir output_dir xyz_limits cells groups w structs)
  <> inl (MissingKey s).
Proof.
  revert w. induction structs as [|struct rest IH]; intros w Hall; simpl; [done|].
  destruct (Hall struct) as [[cell Hcell] [sg Hsg]]; [by left|].
  rewrite Hsg.
  destruct (find_hands ext phase_dir w struct sg) as [f|[oh ih]] eqn:Hh; simpl.
  { intros [= ->]. by apply find_hands_not_missing in Hh. }
  rewrite Hcell.
  destruct (phase_to_map ext w oh _ cell sg xyz_limits) as [e|w1]; simpl; [done|].
  destruct (phase_to_map ext w1 ih _ cell sg xyz_limits) as [e|w2]; simpl; [done|].
  apply IH. intros x Hx. apply Hall. by right.
Qed.

Lemma find_hands_form (phase_dir : Path) (w : World) (struct space_group : string)
    (original_hand inverse_hand : Path) :
  find_hands ext phase_dir w struct space_group = inr (original_hand, inverse_hand) ->
  exists directory,
    (directory = space_group \/ directory = space_group +:+ ":H")
    /\ original_hand = hand ext phase_dir struct directory ".phs"
    /\ inverse_hand = hand ext phase_dir struct directory "_i.phs".
Proof.
  unfold find_hands. destruct space_group as [|first rest]; [done|].
  destruct (ascii_eqb first "R" && negb (path_exists ext w _)).
  - repeat (destruct (negb _); [done|]). intros [= <- <-].
    exists (String first rest +:+ ":H"). split; [by right | done].
  - repeat (destruct (negb _); [done|]). intros [= <- <-].
    exists (String first rest). split; [by left | done].
Qed.

Lemma convert_structs_pairs (phase_dir output_dir : Path) (xyz_limits : Limits)
    (cells : gmap string CellInfo) (groups : gmap string string)
    (w : World) (structs : list string) (w' : World) :
  result (convert_structs ext phase_dir output_dir xyz_limits cells groups w structs)
  = inr w' ->
  exists pairs,
    calls (convert_structs ext phase_dir output_dir xyz_limits cells groups w structs)
    = concat pairs
    /\ Forall2 (conversions_of ext phase_dir output_dir xyz_limits cells groups)
               structs pairs.
Proof.
  revert w. induction structs as [|struct rest IH]; intros w; simpl.
  { intros _. exists []. split; [done | constructor]. }
  destruct (groups !! struct) as [sg|] eqn:Hsg; simpl; [|done].
  destruct (find_hands ext phase_dir w struct sg) as [f|[oh ih]] eqn:Hh; simpl; [done|].
  destruct (cells !! struct) as [cell|] eqn:Hcell; simpl; [|done].
  destruct (phase_to_map ext w oh _ cell sg xyz_limits) as [e|w1]; simpl; [done|].
  destruct (phase_to_map ext w1 ih _ cell sg xyz_limits) as [e|w2]; simpl; [done|].
  intros Hres. destruct (IH w2 Hres) as (pairs & Hcalls & Hpairs).
  destruct (find_hands_form _ _ _ _ _ _ Hh) as (directory & Hdir & -> & ->).
  exists ([Convert (hand ext phase_dir struct directory ".phs")
                    (joinpath ext output_dir (struct +:+ ".map")) cell sg xyz_limits;
            Convert (hand ext phase_dir struct directory "_i.phs")
                    (joinpath ext output_dir (struct +:+ "_i.map")) cell sg xyz_limits]
          :: pairs).
  split.
  - simpl. by rewrite Hcalls.
  - constructor; [|done]. exists sg, cell, directory. done.
Qed.

(** ** The whole preparation *)

Section Prepare.

Context (w : World).
Context (phase_directory output_directory cell_info_directory cell_info_path
           space_group_directory space_group_path : string).
Context (xyz_limits : Limits) (delete_temp : bool).

Lemma collect_info_not_missing (cell_info_dir space_group_dir : Path)
    (w0 : World) (structs : list string)
    (cells : gmap string CellInfo) (groups : gmap string string) (s : string) :
  collect_info ext cell_info_dir space_group_dir cell_info_path space_group_path
    w0 structs cells groups <> inl (MissingKey s).
Proof.
  revert w0 cells groups. induction structs as [|struct rest IH];
    intros w0 cells groups; simpl; [done|].
  destruct (path_exists ext w0 _); simpl; [|done].
  destruct (mtz_get_cell _ _ _) as [?|[cell w1]]; [done|].
  destruct (path_exists ext w1 _); simpl; [|done].
  destruct (find_space_group _ _ _ _) as [?|[sg w2]]; [done|].
  apply IH.
Qed.

Lemma prepare_cases :
  (calls (prepare_training_data ext w phase_directory output_directory
            cell_info_directory cell_info_path space_group_directory
            space_group_path xyz_limits delete_temp) = []
   /\ exists f,
        result (prepare_training_data ext w phase_directory output_directory
                  cell_info_directory cell_info_path space_group_directory
                  space_group_path xyz_limits delete_temp) = inl f
        /\ forall s, f <> MissingKey s)
  \/ (exists structs cells groups w1,
        validated ext w phase_directory output_directory cell_info_directory
          cell_info_path space_group_directory space_group_path
          structs cells groups w1
        /\ prepare_training_data ext w phase_directory output_directory
             cell_info_directory cell_info_path space_group_directory
             space_group_path xyz_limits delete_temp
           = clean_up ext output_directory delete_temp
               (convert_structs ext (path_of ext phase_directory)
                  (path_of ext output_directory) xyz_limits cells groups w1
                  (merge_sort string_le structs))).
Proof.
  unfold prepare_training_data, validated.
  destruct (path_exists ext w (path_of ext phase_directory)); simpl;
    [|left; split; [done|]; by eexists].
  destruct (path_exists ext w (path_of ext cell_info_directory)); simpl;
    [|left; split; [done|]; by eexists].
  destruct (path_exists ext w (path_of ext space_group_directory)); simpl;
    [|left; split; [done|]; by eexists].
  destruct (path_exists ext w (path_of ext output_directory)); simpl;
    [|left; split; [done|]; by eexists].
  destruct (child_stems ext w (path_of ext phase_directory)) as [e|l1];
    [left; split; [done|]; by eexists|].
  destruct (child_stems ext w (path_of ext cell_info_directory)) as [e|l2];
    [left; split; [done|]; by eexists|].
  destruct (child_stems ext w (path_of ext space_group_directory)) as [e|l3];
    [left; split; [done|]; by eexists|].
  destruct (decide (l1 = l2 /\ l2 = l3)) as [[<- <-]|Hne];
    [|left; split; [done|]; by eexists].
  destruct (collect_info ext _ _ cell_info_path space_group_path w
              (merge_sort string_le l1) ∅ ∅) as [f|[[cells groups] w1]] eqn:Hc.
  - left. split; [done|]. exists f. split; [done|]. intros s ->.
    by apply collect_info_not_missing in Hc.
  - right. exists l1, cells, groups, w1. repeat (split; [done|]). done.
Qed.

Lemma validated_keys (structs : list string) (cells : gmap string CellInfo)
    (groups : gmap string string) (w1 : World) :
  validated ext w phase_directory output_directory cell_info_directory
    cell_info_path space_group_directory space_group_path structs cells groups w1 ->
  forall s, s ∈ merge_sort string_le structs ->
            is_Some (cells !! s) /\ is_Some (groups !! s).
Proof.
  intros (_ & _ & _ & _ & _ & _ & _ & Hc) s Hs.
  apply (collect_info_keys _ _ _ _ _ _ _ _ _ _ _ Hc). by left.
Qed.

Lemma omap_call_target_length (cs : list (Call Path CellInfo Limits)) :
  length (omap call_target cs) <= length cs.
Proof.
  induction cs as [|c cs IH]; [done|].
  destruct c; cbn [omap list_omap call_target length] in *; lia.
Qed.

Lemma omap_call_target_convert (cs : list (Call Path CellInfo Limits)) (d : string) :
  length (omap call_target cs) = length cs -> DeleteTemp d ∉ cs.
Proof.
  induction cs as [|c cs IH]; intros Hlen Hin; [by apply elem_of_nil in Hin|].
  pose proof (omap_call_target_length cs) as Hle.
  destruct c as [src tgt cell sg lim|d']; cbn [omap list_omap call_target length] in *.
  - apply elem_of_cons in Hin as [?|Hin]; [done|]. apply IH; [lia | done].
  - lia.
Qed.

Lemma targets_length (output_dir : Path) (structs : list string) :
  length (flat_map (targets_of ext output_dir) structs) = 2 * length structs.
Proof. induction structs as [|s structs IH]; simpl; lia. Qed.

(** X18. Nothing is written before the validation is complete: a run makes a
    conversion or clean-up call only if the four directories exist, the three
    directories list the same structure stems in the same order, and the cell
    information and the space group of every listed structure have been
    collected. *)
Theorem prepare_writes_after_validation :
  calls (prepare_training_data ext w phase_directory output_directory
           cell_info_directory cell_info_path space_group_directory
           space_group_path xyz_limits delete_temp) <> [] ->
  exists structs cells groups w1,
    validated ext w phase_directory output_directory cell_info_directory
      cell_info_path space_group_directory space_group_path structs cells groups w1
    /\ forall s, s ∈ structs -> is_Some (cells !! s) /\ is_Some (groups !! s).
Proof.
  intros Hcalls. destruct prepare_cases as [[Hnil _]|(structs & cells & groups & w1 & Hv & _)];
    [done|].
  exists structs, cells, groups, w1. split; [done|]. intros s Hs.
  apply (validated_keys _ _ _ _ Hv). by rewrite merge_sort_Permutation.
Qed.

(** X19. A run that returns has converted every structure: its calls are,
    for the listed stems in sorted order, the conversion of the original hand
    [struct.phs] to [struct.map] followed by the conversion of the inverse
    hand [struct_i.phs] to [struct_i.map] in the output directory, each with
    the cell information and space group collected for the structure (two
    conversions per listed entry), and then, if [delete_temp] is set, the one
    clean-up of the output directory; without [delete_temp] nothing is
    deleted. *)
Theorem prepare_success_calls (w' : World) :
  result (prepare_training_data ext w phase_directory output_directory
            cell_info_directory cell_info_path space_group_directory
            space_group_path xyz_limits delete_temp) = inr w' ->
  exists structs cells groups w1 pairs,
    validated ext w phase_directory output_directory cell_info_directory
      cell_info_path space_group_directory space_group_path structs cells groups w1
    /\ merge_sort string_le structs ≡ₚ structs
    /\ Sorted string_le (merge_sort string_le structs)
    /\ Forall2 (conversions_of ext (path_of ext phase_directory)
                  (path_of ext output_directory) xyz_limits cells groups)
               (merge_sort string_le structs) pairs
    /\ calls (prepare_training_data ext w phase_directory output_directory
                cell_info_directory cell_info_path space_group_directory
                space_group_path xyz_limits delete_temp)
       = concat pairs ++ (if delete_temp then [DeleteTemp output_directory] else [])
    /\ omap call_target
         (calls (prepare_training_data ext w phase_directory output_directory
                   cell_info_directory cell_info_path space_group_directory
                   space_group_path xyz_limits delete_temp))
       = flat_map (targets_of ext (path_of ext output_directory))
                  (merge_sort string_le structs)
    /\ length (calls (prepare_training_data ext w phase_directory output_directory
                        cell_info_directory cell_info_path space_group_directory
                        space_group_path xyz_limits delete_temp))
       = 2 * length structs + (if delete_temp then 1 else 0)
    /\ (if delete_temp
        then last (calls (prepare_training_data ext w phase_directory
                            output_directory cell_info_directory cell_info_path
                            space_group_directory space_group_path xyz_limits
                            delete_temp))
             = Some (DeleteTemp output_directory)
        else forall d,
               DeleteTemp d ∉
               calls (prepare_training_data ext w phase_directory output_directory
                        cell_info_directory cell_info_path space_group_directory
                        space_group_path xyz_limits delete_temp)).
Proof.
  destruct prepare_cases as [(_ & f & -> & _)|(structs & cells & groups & w1 & Hv & ->)];
    [done|].
  intros Hres.
  pose proof (convert_structs_prefix (path_of ext phase_directory)
                (path_of ext output_directory) xyz_limits cells groups w1
                (merge_sort string_le structs)) as [_ Hlen].
  pose proof (convert_structs_complete (path_of ext phase_directory)
                (path_of ext output_directory) xyz_limits cells groups w1
                (merge_sort string_le structs)) as Hfull.
  pose proof (convert_structs_pairs (path_of ext phase_directory)
                (path_of ext output_directory) xyz_limits cells groups w1
                (merge_sort string_le structs)) as Hpairs.
  pose proof (targets_length (path_of ext output_directory)
                (merge_sort string_le structs)) as Htl.
  rewrite (Permutation_length (merge_sort_Permutation string_le structs)) in Htl.
  unfold clean_up in *.
  destruct (result (convert_structs ext _ _ xyz_limits cells groups w1
                      (merge_sort string_le structs))) as [f|w2] eqn:Hconv;
    [congruence|].
  specialize (Hfull w2 eq_refl).
  destruct (Hpairs w2 eq_refl) as (pairs & Hcalls & Hforall).
  exists structs, cells, groups, w1, pairs.
  split; [done|]. split; [apply merge_sort_Permutation|].
  split; [apply Sorted_merge_sort, _|]. split; [done|].
  destruct delete_temp.
  - assert (Hc : forall r : PrepareFailure Exn + World,
              calls (mkOutcome
                       (calls (convert_structs ext (path_of ext phase_directory)
                                 (path_of ext output_directory) xyz_limits cells groups
                                 w1 (merge_sort string_le structs))
                        ++ [DeleteTemp output_directory]) r)
              = calls (convert_structs ext (path_of ext phase_directory)
                         (path_of ext output_directory) xyz_limits cells groups
                         w1 (merge_sort string_le structs))
                ++ [DeleteTemp output_directory]) by done.
    destruct (delete_temp_files ext w2 output_directory) as [e|w3]; [done|].
    rewrite Hc. rewrite omap_app, length_app, last_snoc. simpl.
    rewrite app_nil_r. split; [by rewrite Hcalls|]. split; [done|]. split; [|done].
    rewrite <- Hlen, Hfull, Htl. lia.
  - rewrite Hconv in Hres. rewrite app_nil_r. split; [done|]. split; [done|]. split.
    + rewrite <- Hlen, Hfull, Htl. lia.
    + intros d. by apply omap_call_target_convert.
Qed.

(** X20. The temporary files are deleted only after every conversion has
    succeeded: a clean-up call in a run means that [delete_temp] is set, that
    it is the last call, on the output directory, and that before it both
    hands of every listed structure were converted. *)
Theorem prepare_clean_up_last (d : string) :
  DeleteTemp d ∈
    calls (prepare_training_data ext w phase_directory output_directory
             cell_info_directory cell_info_path space_group_directory
             space_group_path xyz_limits delete_temp) ->
  delete_temp = true /\ d = output_directory
  /\ exists structs conversions,
       child_stems ext w (path_of ext phase_directory) = inr structs
       /\ calls (prepare_training_data ext w phase_directory output_directory
                   cell_info_directory cell_info_path space_group_directory
                   space_group_path xyz_limits delete_temp)
          = conversions ++ [DeleteTemp output_directory]
       /\ omap call_target conversions
          = flat_map (targets_of ext (path_of ext output_directory))
                     (merge_sort string_le structs)
       /\ length conversions = 2 * length structs.
Proof.
  destruct prepare_cases as [(-> & _)|(structs & cells & groups & w1 & Hv & ->)].
  { intros Hin. by apply elem_of_nil in Hin. }
  destruct Hv as (_ & _ & _ & _ & Hlist & _).
  pose proof (convert_structs_prefix (path_of ext phase_directory)
                (path_of ext output_directory) xyz_limits cells groups w1
                (merge_sort string_le structs)) as [_ Hlen].
  pose proof (convert_structs_complete (path_of ext phase_directory)
                (path_of ext output_directory) xyz_limits cells groups w1
                (merge_sort string_le structs)) as Hfull.
  pose proof (targets_length (path_of ext output_directory)
                (merge_sort string_le structs)) as Htl.
  rewrite (Permutation_length (merge_sort_Permutation string_le structs)) in Htl.
  pose proof (omap_call_target_convert _ d Hlen) as Hno.
  unfold clean_up.
  destruct (result (convert_structs ext _ _ xyz_limits cells groups w1
                      (merge_sort string_le structs))) as [f|w2] eqn:Hconv; [done|].
  specialize (Hfull w2 eq_refl).
  destruct delete_temp; [|done].
  assert (Hin : DeleteTemp d ∈
            calls (convert_structs ext (path_of ext phase_directory)
                     (path_of ext output_directory) xyz_limits cells groups
                     w1 (merge_sort string_le structs))
            ++ [DeleteTemp output_directory] ->
          true = true /\ d = output_directory
          /\ exists structs0 conversions,
               inr structs = inr structs0 :> Exn + list string
               /\ calls (convert_structs ext (path_of ext phase_directory)
                           (path_of ext output_directory) xyz_limits cells groups
                           w1 (merge_sort string_le structs))
                  ++ [DeleteTemp output_directory]
                  = conversions ++ [DeleteTemp output_directory]
               /\ omap call_target conversions
                  = flat_map (targets_of ext (path_of ext output_directory))
                             (merge_sort string_le structs0)
               /\ length conversions = 2 * length structs0).
  { intros Hin. apply elem_of_app in Hin as [Hin|Hin]; [done|].
    apply list_elem_of_singleton in Hin. injection Hin as ->.
    split; [done|]. split; [done|].
    exists structs, (calls (convert_structs ext (path_of ext phase_directory)
                       (path_of ext output_directory) xyz_limits cells groups
                       w1 (merge_sort string_le structs))).
    split; [done|]. split; [done|]. split; [done|].
    rewrite <- Hlen, Hfull, Htl. done. }
  rewrite Hlist.
  destruct (delete_temp_files ext w2 output_directory) as [e|w3]; exact Hin.
Qed.

(** X21. A run never fails on a dictionary lookup: the second loop finds the
    cell information and the space group of every structure it converts. *)
Theorem prepare_never_missing_key (s : string) :
  result (prepare_training_data ext w phase_directory output_directory
            cell_info_directory cell_info_path space_group_directory
            space_group_path xyz_limits delete_temp) <> inl (MissingKey s).
Proof.
  destruct prepare_cases as [(_ & f & -> & Hf)|(structs & cells & groups & w1 & Hv & ->)].
  { intros [= ->]. by apply (Hf s). }
  pose proof (convert_structs_keys (path_of ext phase_directory)
                (path_of ext output_directory) xyz_limits cells groups w1
                (merge_sort string_le structs) s (validated_keys _ _ _ _ Hv)) as Hkey.
  unfold clean_up.
  destruct (result (convert_structs ext _ _ xyz_limits cells groups w1
                      (merge_sort string_le structs))) as [f|w2] eqn:Hconv.
  - by rewrite Hconv.
  - destruct delete_temp; [|by rewrite Hconv].
    by destruct (delete_temp_files ext w2 output_directory).
Qed.

(** X22. Conversions follow the sorted listing and stop at the first failure:
    whatever the outcome, the files written by the conversions of a run are an
    initial part of [s1.map, s1_i.map, s2.map, s2_i.map, ...] for the sorted
    stems s1, s2, ... of the phase directory. *)
Theorem prepare_conversion_order (structs : list string) :
  child_stems ext w (path_of ext phase_directory) = inr structs ->
  omap call_target
    (calls (prepare_training_data ext w phase_directory output_directory
              cell_info_directory cell_info_path space_group_directory
              space_group_path xyz_limits delete_temp))
  `prefix_of` flat_map (targets_of ext (path_of ext output_directory))
                       (merge_sort string_le structs).
Proof.
  intros Hlist.
  destruct prepare_cases as [(-> & _)|(structs' & cells & groups & w1 & Hv & ->)];
    [apply prefix_nil|].
  destruct Hv as (_ & _ & _ & _ & Hlist' & _).
  assert (structs' = structs) as -> by congruence.
  pose proof (convert_structs_prefix (path_of ext phase_directory)
                (path_of ext output_directory) xyz_limits cells groups w1
                (merge_sort string_le structs)) as [Hpre _].
  unfold clean_up.
  destruct (result (convert_structs ext _ _ xyz_limits cells groups w1
                      (merge_sort string_le structs))) as [f|w2]; [done|].
  destruct delete_temp; [|done].
  destruct (delete_temp_files ext w2 output_directory) as [e|w3];
    simpl; rewrite omap_app; simpl; by rewrite app_nil_r.
Qed.

(** X23. The three listings are compared as they are listed, before any
    sorting: when the directories exist and can be listed but the three
    sequences of stems are not equal (even if they hold the same stems in
    another order), the run fails on the assertion and writes nothing. *)
Theorem prepare_listing_order (l1 l2 l3 : list string) :
  path_exists ext w (path_of ext phase_directory) = true ->
  path_exists ext w (path_of ext cell_info_directory) = true ->
  path_exists ext w (path_of ext space_group_directory) = true ->
  path_exists ext w (path_of ext output_directory) = true ->
  child_stems ext w (path_of ext phase_directory) = inr l1 ->
  child_stems ext w (path_of ext cell_info_directory) = inr l2 ->
  child_stems ext w (path_of ext space_group_directory) = inr l3 ->
  l1 <> l2 \/ l2 <> l3 ->
  prepare_training_data ext w phase_directory output_directory
    cell_info_directory cell_info_path space_group_directory
    space_group_path xyz_limits delete_temp
  = mkOutcome [] (inl (AssertionFailed SameStructures)).
Proof.
  intros H1 H2 H3 H4 Hl1 Hl2 Hl3 Hne. unfold prepare_training_data.
  rewrite H1, H2, H3, H4, Hl1, Hl2, Hl3. simpl.
  rewrite decide_False; [done|]. intros [? ?]. destruct Hne; done.
Qed.

End Prepare.

End PrepareFacts.

(** ** Runs on the example file system *)

Lemma find_hands_choice_witness :
  path_exists
    (example_collaborators
       (fun p => negb (String.eqb p "phase/1abc/R3/1abc.phs")) (fun _ => []) "R3")
    tt "phase/1abc/R3:H/1abc.phs" = true.
Proof.
  apply (find_hands_choice
           (example_collaborators
              (fun p => negb (String.eqb p "phase/1abc/R3/1abc.phs")) (fun _ => []) "R3")
           "phase" tt "1abc" "R3" "phase/1abc/R3:H/1abc.phs" "phase/1abc/R3:H/1abc_i.phs").
  reflexivity.
Defined.

Lemma prepare_writes_after_validation_witness :
  exists structs cells groups w1,
    validated (example_collaborators (fun _ => true)
                 (fun p => [p +:+ "/2xyz"; p +:+ "/1abc"]) "P1")
      tt "phase" "out" "cell" "free.mtz" "group" "shelx.log" structs cells groups w1.
Proof.
  destruct (prepare_writes_after_validation
              (example_collaborators (fun _ => true)
                 (fun p => [p +:+ "/2xyz"; p +:+ "/1abc"]) "P1")
              tt "phase" "out" "cell" "free.mtz" "group" "shelx.log" tt true)
    as (structs & cells & groups & w1 & Hv & _).
  - vm_compute. discriminate.
  - exists structs, cells, groups, w1. exact Hv.
Defined.

Lemma prepare_success_calls_witness :
  calls (prepare_training_data
           (example_collaborators (fun _ => true)
              (fun p => [p +:+ "/2xyz"; p +:+ "/1abc"]) "P1")
           tt "phase" "out" "cell" "free.mtz" "group" "shelx.log" tt true)
  = [Convert "phase/1abc/P1/1abc.phs" "out/1abc.map" tt "P1" tt;
     Convert "phase/1abc/P1/1abc_i.phs" "out/1abc_i.map" tt "P1" tt;
     Convert "phase/2xyz/P1/2xyz.phs" "out/2xyz.map" tt "P1" tt;
     Convert "phase/2xyz/P1/2xyz_i.phs" "out/2xyz_i.map" tt "P1" tt;
     DeleteTemp "out"]%string.
Proof.
  destruct (prepare_success_calls
              (example_collaborators (fun _ => true)
                 (fun p => [p +:+ "/2xyz"; p +:+ "/1abc"]) "P1")
              tt "phase" "out" "cell" "free.mtz" "group" "shelx.log" tt true tt)
    as (structs & cells & groups & w1 & pairs & _ & _ & _ & _ & Hcalls & _).
  - reflexivity.
  - reflexivity.
Defined.

Lemma prepare_clean_up_last_witness :
  exists conversions,
    calls (prepare_training_data
             (example_collaborators (fun _ => true)
                (fun p => [p +:+ "/2xyz"; p +:+ "/1abc"]) "P1")
             tt "phase" "out" "cell" "free.mtz" "group" "shelx.log" tt true)
    = conversions ++ [DeleteTemp "out"]
    /\ length conversions = 4.
Proof.
  destruct (prepare_clean_up_last
              (example_collaborators (fun _ => true)
                 (fun p => [p +:+ "/2xyz"; p +:+ "/1abc"]) "P1")
              tt "phase" "out" "cell" "free.mtz" "group" "shelx.log" tt true "out")
    as (_ & _ & structs & conversions & Hlist & Hcalls & _ & Hlen).
  - vm_compute. do 4 right. left.
  - exists conversions. split; [exact Hcalls|].
    rewrite Hlen. injection Hlist as <-. reflexivity.
Defined.

Lemma prepare_conversion_order_witness :
  omap call_target
    (calls (prepare_training_data
              (example_collaborators
                 (fun p => negb (String.eqb p "phase/2xyz/P1/2xyz.phs"))
                 (fun p => [p +:+ "/2xyz"; p +:+ "/1abc"]) "P1")
              tt "phase" "out" "cell" "free.mtz" "group" "shelx.log" tt true))
  `prefix_of` ["out/1abc.map"; "out/1abc_i.map"; "out/2xyz.map"; "out/2xyz_i.map"]%string.
Proof.
  apply (prepare_conversion_order
           (example_collaborators
              (fun p => negb (String.eqb p "phase/2xyz/P1/2xyz.phs"))
              (fun p => [p +:+ "/2xyz"; p +:+ "/1abc"]) "P1")
           tt "phase" "out" "cell" "free.mtz" "group" "shelx.log" tt true
           ["2xyz"; "1abc"]%string).
  reflexivity.
Defined.

Lemma prepare_listing_order_witness :
  prepare_training_data
    (example_collaborators (fun _ => true)
       (fun p => if String.eqb p "phase"
                 then [p +:+ "/2xyz"; p +:+ "/1abc"]
                 else [p +:+ "/1abc"; p +:+ "/2xyz"]) "P1")
    tt "phase" "out" "cell" "free.mtz" "group" "shelx.log" tt true
  = mkOutcome [] (inl (AssertionFailed SameStructures)).
Proof.
  apply (prepare_listing_order
           (example_collaborators (fun _ => true)
              (fun p => if String.eqb p "phase"
                        then [p +:+ "/2xyz"; p +:+ "/1abc"]
                        else [p +:+ "/1abc"; p +:+ "/2xyz"]) "P1")
           tt "phase" "out" "cell" "free.mtz" "group" "shelx.log" tt true
           ["2xyz"; "1abc"]%string ["1abc"; "2xyz"]%string ["1abc"; "2xyz"]%string).
  - reflexivity.
  - reflexivity.
  - reflexivity.
  - reflexivity.
  - reflexivity.
  - reflexivity.
  - reflexivity.
  - left. discriminate.
Defined.
